(** * pb-toolkit, package rpc: a shallow embedding of the reflection-based
    RPC registry and dispatcher of [pkg/rpc/server.go].

    Go values are modelled as follows:
    - a Go [string] is a byte sequence; it is a Rocq [string], whose [ascii]
      characters are 8-bit bytes;
    - the registry [map[string]*RPCService] and the method table
      [map[string]*RPCMethod] are stdpp [gmap]s keyed by strings;
    - a [reflect.Type] is a record [GoType]; a [nil] [reflect.Type] is [None];
    - a run-time panic of the Go code is the response [Panic]. *)

From Stdlib Require Import ZArith NArith String Ascii List Bool.
From stdpp Require Import base gmap strings list.

Import ListNotations.
Open Scope string_scope.

(* ------------------------------------------------------------------ *)
(** ** Go strings as byte sequences                                     *)
(* ------------------------------------------------------------------ *)

Module GoStrings.

(** The numeric value of a byte. *)
Definition byte_val (c : ascii) : N := N_of_ascii c.

(** The byte with a given value (taken modulo 256). *)
Definition byte_of (n : N) : ascii := ascii_of_N n.

(** [s[n:]]. *)
Fixpoint drop (n : nat) (s : string) : string :=
  match n, s with
  | O, _ => s
  | S _, EmptyString => EmptyString
  | S n', String _ s' => drop n' s'
  end.

(** [strings.Join(parts, "")]. *)
Fixpoint join (parts : list string) : string :=
  match parts with
  | [] => EmptyString
  | p :: ps => String.append p (join ps)
  end.

(** [strings.Split(s, "-")]: the separator is the single byte ['-'].
    As in Go, the empty string splits into the one-element list [[""]]
    and the result has one more part than [s] has hyphens. *)
Fixpoint Split (s : string) : list string :=
  match s with
  | EmptyString => [EmptyString]
  | String c s' =>
      let parts := Split s' in
      if Ascii.eqb c "-"%char then EmptyString :: parts
      else match parts with
           | p :: ps => String c p :: ps
           | [] => [String c EmptyString]
           end
  end.

(** The loop of [strings.ToUpper]/[strings.ToLower] that checks whether
    every byte is below [utf8.RuneSelf] (0x80). *)
Fixpoint isASCII (s : string) : bool :=
  match s with
  | EmptyString => true
  | String c s' => (byte_val c <? 128)%N && isASCII s'
  end.

Fixpoint string_map (f : ascii -> ascii) (s : string) : string :=
  match s with
  | EmptyString => EmptyString
  | String c s' => String (f c) (string_map f s')
  end.

(** The ASCII fast paths of [strings.ToUpper] and [strings.ToLower]. *)
Definition ascii_upper (c : ascii) : ascii :=
  let b := byte_val c in
  if ((97 <=? b) && (b <=? 122))%N then byte_of (b - 32) else c.

Definition ascii_lower (c : ascii) : ascii :=
  let b := byte_val c in
  if ((65 <=? b) && (b <=? 90))%N then byte_of (b + 32) else c.

(** *** UTF-8, as [unicode/utf8] does it *)

Definition RuneError : Z := 65533.

Definition cont (b : N) : bool := ((128 <=? b) && (b <=? 191))%N.

Definition cont_in (lo hi b : N) : bool := ((lo <=? b) && (b <=? hi))%N.

(** [utf8.DecodeRuneInString]: the rune at the head of [s] and its width;
    an invalid or truncated sequence decodes as [(RuneError, 1)]. *)
Definition DecodeRune (s : string) : Z * nat :=
  match s with
  | EmptyString => (RuneError, O)
  | String c0 s0 =>
      let b0 := byte_val c0 in
      if (b0 <? 128)%N then (Z.of_N b0, 1%nat)
      else if cont_in 194 223 b0 then
        match s0 with
        | String c1 _ =>
            let b1 := byte_val c1 in
            if cont b1
            then (Z.of_N ((b0 - 192) * 64 + (b1 - 128)), 2%nat)
            else (RuneError, 1%nat)
        | EmptyString => (RuneError, 1%nat)
        end
      else if cont_in 224 239 b0 then
        let lo := if (b0 =? 224)%N then 160%N else 128%N in
        let hi := if (b0 =? 237)%N then 159%N else 191%N in
        match s0 with
        | String c1 (String c2 _) =>
            let b1 := byte_val c1 in let b2 := byte_val c2 in
            if cont_in lo hi b1 && cont b2
            then (Z.of_N ((b0 - 224) * 4096 + (b1 - 128) * 64 + (b2 - 128)), 3%nat)
            else (RuneError, 1%nat)
        | _ => (RuneError, 1%nat)
        end
      else if cont_in 240 244 b0 then
        let lo := if (b0 =? 240)%N then 144%N else 128%N in
        let hi := if (b0 =? 244)%N then 143%N else 191%N in
        match s0 with
        | String c1 (String c2 (String c3 _)) =>
            let b1 := byte_val c1 in let b2 := byte_val c2 in
            let b3 := byte_val c3 in
            if cont_in lo hi b1 && cont b2 && cont b3
            then (Z.of_N ((b0 - 240) * 262144 + (b1 - 128) * 4096
                          + (b2 - 128) * 64 + (b3 - 128)), 4%nat)
            else (RuneError, 1%nat)
        | _ => (RuneError, 1%nat)
        end
      else (RuneError, 1%nat)
  end.

(** [for _, r := range s]: the runes of [s] ([fuel] bounds the number of
    steps; every step consumes at least one byte). *)
Fixpoint runes_fuel (fuel : nat) (s : string) : list Z :=
  match fuel with
  | O => []
  | S fuel' =>
      match s with
      | EmptyString => []
      | String _ _ =>
          let '(r, w) := DecodeRune s in r :: runes_fuel fuel' (drop w s)
      end
  end.

Definition runes (s : string) : list Z := runes_fuel (String.length s) s.

Definition str1 (b : Z) : string := String (byte_of (Z.to_N b)) EmptyString.

(** [utf8.EncodeRune] (as used by [strings.Builder.WriteRune]). *)
Definition EncodeRune (r : Z) : string :=
  let r := if ((r <? 0) || ((55296 <=? r) && (r <=? 57343)) || (1114111 <? r))%Z
           then RuneError else r in
  if (r <? 128)%Z then str1 r
  else if (r <? 2048)%Z then
    String.append (str1 (192 + r / 64)) (str1 (128 + r mod 64))
  else if (r <? 65536)%Z then
    String.append (str1 (224 + r / 4096))
      (String.append (str1 (128 + (r / 64) mod 64)) (str1 (128 + r mod 64)))
  else
    String.append (str1 (240 + r / 262144))
      (String.append (str1 (128 + (r / 4096) mod 64))
        (String.append (str1 (128 + (r / 64) mod 64)) (str1 (128 + r mod 64)))).

Definition encode_runes (rs : list Z) : string := join (map EncodeRune rs).

(** [strings.Map(mapping, s)] for a [mapping] that never drops a rune
    (returns no negative value): every rune of [s], an invalid byte read as
    [RuneError], is replaced by the encoding of its image. *)
Definition Map (mapping : Z -> Z) (s : string) : string :=
  encode_runes (map mapping (runes s)).

(** [unicode.ToUpper] and [unicode.ToLower] on runes. The ASCII branch is
    Go's; above it, this development carries the entries of Go's case
    tables for the Latin-1 Supplement (U+0080..U+00FF) and leaves every
    higher rune unchanged. No theorem below evaluates a rune above U+00FF
    other than [RuneError], which has no case mapping in Go either. *)
Definition unicode_ToUpper (r : Z) : Z :=
  if (r <=? 127)%Z then (if ((97 <=? r) && (r <=? 122))%Z then r - 32 else r)%Z
  else if (r =? 181)%Z then 924%Z
  else if (((224 <=? r) && (r <=? 246)) || ((248 <=? r) && (r <=? 254)))%Z
  then (r - 32)%Z
  else if (r =? 255)%Z then 376%Z
  else r.

Definition unicode_ToLower (r : Z) : Z :=
  if (r <=? 127)%Z then (if ((65 <=? r) && (r <=? 90))%Z then r + 32 else r)%Z
  else if (((192 <=? r) && (r <=? 214)) || ((216 <=? r) && (r <=? 222)))%Z
  then (r + 32)%Z
  else r.

(** [strings.ToUpper]: the ASCII fast path, otherwise
    [Map(unicode.ToUpper, s)]. *)
Definition ToUpper (s : string) : string :=
  if isASCII s then string_map ascii_upper s else Map unicode_ToUpper s.

(** [strings.ToLower]: the ASCII fast path, otherwise
    [Map(unicode.ToLower, s)]. *)
Definition ToLower (s : string) : string :=
  if isASCII s then string_map ascii_lower s else Map unicode_ToLower s.

End GoStrings.

Import GoStrings.

(* ------------------------------------------------------------------ *)
(** ** [kebabToPascal]                                                   *)
(* ------------------------------------------------------------------ *)

(** The body of the loop of [kebabToPascal] on one part:
    [strings.ToUpper(part[:1]) + strings.ToLower(part[1:])] when
    [len(part) > 0]. Note that [part[:1]] is the first byte of [part]. *)
Definition kebab_part (part : string) : string :=
  if (0 <? String.length part)%nat
  then String.append (ToUpper (substring 0 1 part)) (ToLower (drop 1 part))
  else part.

Definition kebabToPascal (kebab : string) : string :=
  join (map kebab_part (Split kebab)).

(** The conversion as the spec words it, on characters (runes): split at
    each hyphen, capitalise the first character of each token, lowercase
    the rest, and concatenate. *)
Fixpoint split_runes (rs : list Z) : list (list Z) :=
  match rs with
  | [] => [[]]
  | r :: rs' =>
      let parts := split_runes rs' in
      if (r =? 45)%Z then [] :: parts
      else match parts with
           | p :: ps => (r :: p) :: ps
           | [] => [[r]]
           end
  end.

Definition capitalize_token (t : list Z) : list Z :=
  match t with
  | [] => []
  | r :: rs => unicode_ToUpper r :: map unicode_ToLower rs
  end.

Definition kebabToPascal_spec (kebab : string) : string :=
  encode_runes (concat (map capitalize_token (split_runes (runes kebab)))).

(** A two-byte string [é] (U+00E9, UTF-8 [C3 A9]) and [É] (U+00C9). *)
Definition e_acute : string := String (byte_of 195) (String (byte_of 169) EmptyString).
Definition E_acute : string := String (byte_of 195) (String (byte_of 137) EmptyString).

(** The bytes of a string, each read as a rune. *)
Fixpoint bytes (s : string) : list Z :=
  match s with
  | EmptyString => []
  | String c s' => Z.of_N (byte_val c) :: bytes s'
  end.

(* ------------------------------------------------------------------ *)
(** ** The part of [reflect] the package uses                            *)
(* ------------------------------------------------------------------ *)

(** [reflect.Kind]. *)
Inductive Kind :=
  | KInvalid | KBool | KInt | KInt8 | KInt16 | KInt32 | KInt64
  | KUint | KUint8 | KUint16 | KUint32 | KUint64 | KUintptr
  | KFloat32 | KFloat64 | KComplex64 | KComplex128
  | KArray | KChan | KFunc | KInterface | KMap | KPointer | KSlice
  | KString | KStruct | KUnsafePointer.

#[global] Instance Kind_eq_dec : EqDecision Kind.
Proof. solve_decision. Defined.

(** A (non-nil) [reflect.Type]: its name, its [Kind()], and whether
    [t.Implements] holds for the [error] interface type. *)
Record GoType := mkGoType {
  type_name : string;
  type_kind : Kind;
  implements_error : bool
}.

Definition type_eqb (t u : GoType) : bool :=
  String.eqb (type_name t) (type_name u)
  && bool_decide (type_kind t = type_kind u)
  && Bool.eqb (implements_error t) (implements_error u).

(** A [reflect.Value]: its type, whether it is a nil pointer, interface,
    map, slice, channel or function, and an opaque rendering of its
    contents. *)
Record Value := mkValue {
  val_type : GoType;
  val_nil : bool;
  val_repr : string
}.

(** [v.IsNil()]: [None] when [IsNil] panics, i.e. on a value whose kind
    cannot be nil. *)
Definition IsNil (v : Value) : option bool :=
  match type_kind (val_type v) with
  | KChan | KFunc | KInterface | KMap | KPointer | KSlice | KUnsafePointer =>
      Some (val_nil v)
  | _ => None
  end.

(** A [reflect.Method] obtained from a type: [In_types] and [Out_types] are
    [method.Type.In(i)] and [method.Type.Out(i)], the receiver being
    [In(0)]; [Func] is what a call of the method bound to its receiver
    returns for the given arguments. *)
Record ReflectMethod := mkReflectMethod {
  Name : string;
  PkgPath : string;
  In_types : list GoType;
  Out_types : list GoType;
  Func : list Value -> list Value
}.

(** The dynamic value stored in the [interface{}] passed to
    [RegisterService]: an identity and the method set of its dynamic type,
    in the lexicographic order of [reflect], exported or not. *)
Record Instance := mkInstance {
  inst_id : nat;
  inst_methods : list ReflectMethod
}.

(** [t.NumMethod()] / [t.Method(i)] for the (non-interface) dynamic type:
    only exported methods are visible, i.e. those whose [PkgPath] is empty. *)
Definition type_methods (inst : Instance) : list ReflectMethod :=
  List.filter (fun m => String.eqb (PkgPath m) "") (inst_methods inst).

(** [reflect.ValueOf(service).MethodByName(name)]; [None] stands for the
    zero [reflect.Value] (no such method, or a nil service), on which the
    following [Call] panics. *)
Definition MethodByName (service : option Instance) (name : string)
  : option ReflectMethod :=
  match service with
  | None => None
  | Some inst => List.find (fun m => String.eqb (Name m) name) (type_methods inst)
  end.

Fixpoint args_match (args : list Value) (params : list GoType) : bool :=
  match args, params with
  | [], [] => true
  | a :: args', p :: params' => type_eqb (val_type a) p && args_match args' params'
  | _, _ => false
  end.

(** [methodValue.Call(args)]: [None] when [Call] panics (wrong number of
    arguments or an argument of another type). Every call the package
    makes passes an argument of exactly the parameter type or a plain
    [string]; for those, assignability is type identity. *)
Definition Call (m : ReflectMethod) (args : list Value) : option (list Value) :=
  if args_match args (tail (In_types m)) then Some (Func m args) else None.

(* ------------------------------------------------------------------ *)
(** ** [RPCMethod], [RPCService], [Server] and [RegisterService]         *)
(* ------------------------------------------------------------------ *)

(** [RPCMethod]. The Go field [Type] is [Type'] here; a nil
    [reflect.Type] is [None]. *)
Record RPCMethod := mkRPCMethod {
  Method : ReflectMethod;
  Type' : option GoType;
  HasParams : bool;
  HasResult : bool;
  ResultType : option GoType
}.

(** [RPCService]; [service] is [None] for a nil [interface{}]. *)
Record RPCService := mkRPCService {
  service : option Instance;
  methods : gmap string RPCMethod;
  serviceName : string
}.

Record Server := mkServer {
  services : gmap string RPCService
}.

Definition NewServer : Server := {| services := ∅ |}.

(** The body of the loop of [RegisterService] on one method: [None] when
    one of the checks [continue]s, otherwise the [methodInfo] built. *)
Definition method_info (method : ReflectMethod) : option RPCMethod :=
  if negb (String.eqb (PkgPath method) "") then None else
  let numIn := length (In_types method) in
  if negb ((numIn =? 1)%nat || (numIn =? 2)%nat) then None else
  let numOut := length (Out_types method) in
  if negb ((numOut =? 1)%nat || (numOut =? 2)%nat) then None else
  match nth_error (Out_types method) (numOut - 1) with
  | None => None
  | Some lastOut =>
      if negb (implements_error lastOut) then None else
      let '(hasParams, ty) :=
        if (numIn =? 2)%nat then (true, nth_error (In_types method) 1)
        else (false, None) in
      let '(hasResult, resultType) :=
        if (numOut =? 2)%nat then (true, nth_error (Out_types method) 0)
        else (false, None) in
      Some {| Method := method; Type' := ty; HasParams := hasParams;
              HasResult := hasResult; ResultType := resultType |}
  end.

(** The loop [for i := 0; i < serviceType.NumMethod(); i++], filling
    [svc.methods] in place. *)
Definition register_methods (ms : list ReflectMethod)
  (acc : gmap string RPCMethod) : gmap string RPCMethod :=
  fold_left (fun acc method =>
    match method_info method with
    | Some methodInfo => <[Name method := methodInfo]> acc
    | None => acc
    end) ms acc.

(** The [svc] that [RegisterService] builds (lines 175 to 243). *)
Definition introspect (name : string) (service : option Instance) : RPCService :=
  match service with
  | None => {| service := None; methods := ∅; serviceName := name |}
  | Some inst =>
      {| service := Some inst;
         methods := register_methods (type_methods inst) ∅;
         serviceName := name |}
  end.

(** [s.RegisterService(name, service)]: the new server state and the
    returned [error] ([None] for [nil]). The log lines it prints are not
    modelled. *)
Definition RegisterService (s : Server) (name : string) (service : option Instance)
  : Server * option string :=
  ({| services := <[name := introspect name service]> (services s) |}, None).

(* ------------------------------------------------------------------ *)
(** ** Requests, responses and the dispatcher                            *)
(* ------------------------------------------------------------------ *)

(** The JSON bodies the handlers pass to [e.JSON]:
    - [ErrorBody msg]: the value of [fmt.Errorf] with message [msg];
    - [FailureBody err]: the error value returned by the invoked method;
    - [ResultBody v]: the first result of the invoked method;
    - [MapBody kvs]: a [map[string]string] literal. *)
Inductive Body :=
  | ErrorBody (msg : string)
  | FailureBody (err : Value)
  | ResultBody (v : Value)
  | MapBody (kvs : list (string * string)).

(** What a handler produces: [e.JSON(status, body)], or a run-time panic. *)
Inductive Response :=
  | JSON (status : Z) (body : Body)
  | Panic (msg : string).

Definition StatusOK : Z := 200.
Definition StatusBadRequest : Z := 400.
Definition StatusNotFound : Z := 404.
Definition StatusInternalServerError : Z := 500.

(** The observable steps of a request before its response: decoding the
    body into a parameter of a type ([EvBind]) and calling a method
    ([EvCall], with its arguments and the results it returned). *)
Inductive Event :=
  | EvBind (t : GoType)
  | EvCall (name : string) (args : list Value) (results : list Value).

(** The parts of [*core.RequestEvent] the handlers use: the raw body and
    [e.BindBody], which decodes it into a fresh value of a type or fails
    with a message. *)
Record RequestEvent := mkRequestEvent {
  req_body : string;
  BindBody : GoType -> string -> string + Value
}.

Definition nil_deref : string :=
  "runtime error: invalid memory address or nil pointer dereference".

(** The final [if method.HasResult { ... } else { ... }] shared by
    [handleRPC] and [handleRPCGet]. *)
Definition check_results (method : RPCMethod) (results : list Value) : Response :=
  if HasResult method then
    match nth_error results 1 with
    | None => Panic "index out of range"
    | Some r1 =>
        match IsNil r1 with
        | None => Panic "reflect: call of reflect.Value.IsNil"
        | Some false => JSON StatusInternalServerError (FailureBody r1)
        | Some true =>
            match nth_error results 0 with
            | None => Panic "index out of range"
            | Some r0 => JSON StatusOK (ResultBody r0)
            end
        end
    end
  else
    match nth_error results 0 with
    | None => Panic "index out of range"
    | Some r0 =>
        match IsNil r0 with
        | None => Panic "reflect: call of reflect.Value.IsNil"
        | Some false => JSON StatusInternalServerError (FailureBody r0)
        | Some true => JSON StatusOK (MapBody [("status", "ok")])
        end
    end.

Definition service_not_found (serviceName : string) : Response :=
  JSON StatusNotFound (ErrorBody ("Service '" +:+ serviceName +:+ "' not found")).

Definition method_not_found (methodName serviceName : string) : Response :=
  JSON StatusNotFound
    (ErrorBody ("Method '" +:+ methodName +:+ "' not found in service '"
                +:+ serviceName +:+ "'")).

(** [s.handleRPC(e, serviceName, methodName)]. *)
Definition handleRPC (s : Server) (e : RequestEvent) (serviceName methodName : string)
  : Response * list Event :=
  match services s !! serviceName with
  | None => (service_not_found serviceName, [])
  | Some svc =>
      match methods svc !! methodName with
      | None => (method_not_found methodName serviceName, [])
      | Some method =>
          match MethodByName (service svc) (Name (Method method)) with
          | None => (Panic "reflect: call of reflect.Value.Call on zero Value", [])
          | Some methodValue =>
              if HasParams method then
                match Type' method with
                | None => (Panic "reflect: New(nil)", [])
                | Some argType =>
                    match BindBody e argType (req_body e) with
                    | inl err =>
                        (JSON StatusBadRequest (ErrorBody ("Invalid parameters: " +:+ err)),
                         [EvBind argType])
                    | inr arg =>
                        match Call methodValue [arg] with
                        | None => (Panic "reflect: Call using wrong argument", [EvBind argType])
                        | Some results =>
                            (check_results method results,
                             [EvBind argType; EvCall (Name methodValue) [arg] results])
                        end
                    end
                end
              else
                match Call methodValue [] with
                | None => (Panic "reflect: Call with too few input arguments", [])
                | Some results =>
                    (check_results method results, [EvCall (Name methodValue) [] results])
                end
          end
      end
  end.

(** The type of the Go built-in [string], and [reflect.ValueOf(id)]. *)
Definition string_type : GoType :=
  {| type_name := "string"; type_kind := KString; implements_error := false |}.

Definition string_value (id : string) : Value :=
  {| val_type := string_type; val_nil := false; val_repr := id |}.

(** [s.handleRPCGet(e, serviceName, entityName, id)]. [method.Type] is a
    nil [reflect.Type] for a parameterless method, and [argType.Kind()]
    on it dereferences nil. *)
Definition handleRPCGet (s : Server) (e : RequestEvent)
  (serviceName entityName id : string) : Response * list Event :=
  match services s !! serviceName with
  | None => (service_not_found serviceName, [])
  | Some svc =>
      let methodName := "Get" +:+ entityName in
      match methods svc !! methodName with
      | None => (method_not_found methodName serviceName, [])
      | Some method =>
          match Type' method with
          | None => (Panic nil_deref, [])
          | Some argType =>
              if bool_decide (type_kind argType <> KString) then
                (JSON StatusBadRequest
                   (ErrorBody ("Method '" +:+ methodName
                               +:+ "' does not accept a string parameter")), [])
              else
                match MethodByName (service svc) (Name (Method method)) with
                | None => (Panic "reflect: call of reflect.Value.Call on zero Value", [])
                | Some methodValue =>
                    match Call methodValue [string_value id] with
                    | None => (Panic "reflect: Call using wrong argument", [])
                    | Some results =>
                        (check_results method results,
                         [EvCall (Name methodValue) [string_value id] results])
                    end
                end
          end
      end
  end.

(** [s.handle(e)] for [POST /{service}/{method}] and [s.handleGet(e)] for
    [GET /{service}/{entity}/{id}], given the path values. *)
Definition handle (s : Server) (e : RequestEvent) (serv method : string)
  : Response * list Event :=
  handleRPC s e serv (kebabToPascal method).

Definition handleGet (s : Server) (e : RequestEvent) (serv entity id : string)
  : Response * list Event :=
  handleRPCGet s e serv (kebabToPascal entity) id.

(* ------------------------------------------------------------------ *)
(** ** Well-formed reflected values and reachable servers                *)
(* ------------------------------------------------------------------ *)

(** What Go's type system guarantees of a method obtained by reflection:
    it has a receiver, and a call returns as many values as the method
    declares. *)
Definition wf_method (m : ReflectMethod) : Prop :=
  In_types m <> [] /\ forall args, length (Func m args) = length (Out_types m).

(** A method set: names are unique, and every method is well formed. *)
Definition wf_instance (inst : Instance) : Prop :=
  NoDup (map Name (inst_methods inst)) /\ Forall wf_method (inst_methods inst).

(** The servers of the setup phase: [NewServer] followed by any sequence
    of [RegisterService] calls. *)
Inductive reachable : Server -> Prop :=
  | reachable_new : reachable NewServer
  | reachable_register (s : Server) (name : string) (inst : option Instance) :
      reachable s ->
      (forall i, inst = Some i -> wf_instance i) ->
      reachable (fst (RegisterService s name inst)).

(** The eligibility rule in the words of the spec: exported, zero or one
    parameter beyond the receiver, one or two results, and a last result
    implementing [error]. *)
Definition trailing {A} (l : list A) : option A :=
  match rev l with
  | x :: _ => Some x
  | [] => None
  end.

Definition eligible (m : ReflectMethod) : bool :=
  String.eqb (PkgPath m) ""
  && (length (tail (In_types m)) <=? 1)%nat
  && ((length (Out_types m) =? 1)%nat || (length (Out_types m) =? 2)%nat)
  && match trailing (Out_types m) with
     | Some t => implements_error t
     | None => false
     end.

(** Internal consistency of a stored descriptor under key [k]. *)
Definition descriptor_ok (k : string) (md : RPCMethod) : Prop :=
  k = Name (Method md) /\
  (HasParams md = true <-> Type' md <> None) /\
  (forall t, Type' md = Some t -> exists recv, In_types (Method md) = [recv; t]) /\
  (HasResult md = true <-> ResultType md <> None) /\
  (forall t, ResultType md = Some t -> exists err, Out_types (Method md) = [t; err]).

(* ------------------------------------------------------------------ *)
(** ** The fixture of [server_test.go]                                   *)
(* ------------------------------------------------------------------ *)

Module Fixture.

Definition recv_type : GoType := mkGoType "*rpc.TestService" KPointer false.
Definition TestRequest : GoType := mkGoType "rpc.TestRequest" KStruct false.
Definition TestResponse : GoType := mkGoType "rpc.TestResponse" KStruct false.
Definition StatsResponse : GoType := mkGoType "rpc.StatsResponse" KStruct false.
Definition error_type : GoType := mkGoType "error" KInterface true.

Definition nil_error : Value := mkValue error_type true "<nil>".
Definition response (r : string) : Value := mkValue TestResponse false r.

Definition arg_repr (args : list Value) : string :=
  match args with
  | a :: _ => val_repr a
  | [] => ""
  end.

(** The methods of [*TestService], in the order of [reflect]. *)
Definition CreateUser : ReflectMethod :=
  mkReflectMethod "CreateUser" "" [recv_type; TestRequest] [TestResponse; error_type]
    (fun args => [response ("user_123 " +:+ arg_repr args); nil_error]).
Definition GetStats : ReflectMethod :=
  mkReflectMethod "GetStats" "" [recv_type] [StatsResponse; error_type]
    (fun _ => [mkValue StatsResponse false "100 active"; nil_error]).
Definition GetUser : ReflectMethod :=
  mkReflectMethod "GetUser" "" [recv_type; string_type] [TestResponse; error_type]
    (fun args => [response (arg_repr args +:+ " Test User"); nil_error]).
Definition InvalidMethod1 : ReflectMethod :=
  mkReflectMethod "InvalidMethod1" "" [recv_type; TestRequest] [TestResponse]
    (fun _ => [response ""]).
Definition InvalidMethod2 : ReflectMethod :=
  mkReflectMethod "InvalidMethod2" "" [recv_type; TestRequest; string_type]
    [TestResponse; error_type] (fun _ => [response ""; nil_error]).
Definition RefreshCache : ReflectMethod :=
  mkReflectMethod "RefreshCache" "" [recv_type] [error_type] (fun _ => [nil_error]).
Definition UpdateUser : ReflectMethod :=
  mkReflectMethod "UpdateUser" "" [recv_type; TestRequest] [TestResponse; error_type]
    (fun args => [response (arg_repr args); nil_error]).

Definition TestService : Instance :=
  mkInstance 1 [CreateUser; GetStats; GetUser; InvalidMethod1; InvalidMethod2;
                RefreshCache; UpdateUser].

(** A service whose [GetOrder(id string) (TestResponse, error)] fails. *)
Definition order_error : Value := mkValue error_type false "order not found".
Definition GetOrder : ReflectMethod :=
  mkReflectMethod "GetOrder" "" [recv_type; string_type] [TestResponse; error_type]
    (fun _ => [response ""; order_error]).
Definition OrderService : Instance := mkInstance 2 [GetOrder].

(** A request whose body decodes into any type. *)
Definition event (body : string) : RequestEvent :=
  mkRequestEvent body (fun t b => inr (mkValue t false b)).

(** [server.RegisterService("test", &TestService{})] on a new server. *)
Definition test_server : Server := fst (RegisterService NewServer "test" (Some TestService)).

End Fixture.

(* ------------------------------------------------------------------ *)
(** ** Conditions on reflected values and helpers on strings            *)
(* ------------------------------------------------------------------ *)

(** The kinds on which [reflect.Value.IsNil] does not panic. *)
Definition nilable_kind (k : Kind) : bool :=
  match k with
  | KChan | KFunc | KInterface | KMap | KPointer | KSlice | KUnsafePointer => true
  | _ => false
  end.

(** A method whose calls return values of its declared result types, the
    last of which has a kind that can be nil (an interface such as [error],
    or a pointer). *)
Definition typed_results (m : ReflectMethod) : Prop :=
  (forall args, map val_type (Func m args) = Out_types m) /\
  (forall t, trailing (Out_types m) = Some t -> nilable_kind (type_kind t) = true).


(** The number of ['-'] bytes of a string. *)
Fixpoint hyphens (s : string) : nat :=
  match s with
  | EmptyString => O
  | String c s' => ((if Ascii.eqb c "-"%char then 1 else 0) + hyphens s')%nat
  end.

(** [strings.Join(parts, "-")]. *)
Fixpoint hyphen_join (parts : list string) : string :=
  match parts with
  | [] => EmptyString
  | [p] => p
  | p :: ps => String.append p (String "-"%char (hyphen_join ps))
  end.

Definition is_upper_byte (c : ascii) : bool := ((65 <=? byte_val c) && (byte_val c <=? 90))%N.

(** A byte that may follow the capital of a word: ASCII, neither an
    upper-case letter nor a hyphen. *)
Definition word_tail_byte (c : ascii) : bool :=
  (byte_val c <? 128)%N && negb (is_upper_byte c) && negb (Ascii.eqb c "-"%char).

Fixpoint all_bytes (p : ascii -> bool) (s : string) : bool :=
  match s with
  | EmptyString => true
  | String c s' => p c && all_bytes p s'
  end.

(** A capitalised ASCII word such as [Create], [User] or [I]: an upper-case
    letter followed by bytes of [word_tail_byte]. Every exported ASCII Go
    identifier made of letters, digits and underscores is a concatenation
    of such words (cut before each capital). *)
Definition pascal_word (w : string) : bool :=
  match w with
  | EmptyString => false
  | String u r => is_upper_byte u && all_bytes word_tail_byte r
  end.

(** The kebab-case slug of a sequence of words: each lowercased, joined by
    hyphens ([Create], [User] give ["create-user"]). *)
Definition kebab_of_words (ws : list string) : string :=
  hyphen_join (map (string_map ascii_lower) ws).

(* ------------------------------------------------------------------ *)
(** ** The caller in [cmd/server]: [ProductsService], and edge cases     *)
(* ------------------------------------------------------------------ *)

Module Products.

Import Fixture.

Definition recv_type : GoType := mkGoType "*main.ProductsService" KPointer false.
Definition Product : GoType := mkGoType "main.Product" KStruct false.
Definition ListRequest : GoType := mkGoType "main.ListRequest" KStruct false.
Definition UpdateRequest : GoType := mkGoType "main.UpdateRequest" KStruct false.
Definition DeleteRequest : GoType := mkGoType "main.DeleteRequest" KStruct false.
Definition ProductSlice : GoType := mkGoType "[]main.Product" KSlice false.

Definition product (r : string) : Value := mkValue Product false r.

(** The methods of [*ProductsService] (exported, in the order of
    [reflect]), against a collection in which every query succeeds. *)
Definition Clean : ReflectMethod :=
  mkReflectMethod "Clean" "" [recv_type] [error_type] (fun _ => [nil_error]).
Definition Create : ReflectMethod :=
  mkReflectMethod "Create" "" [recv_type; Product] [Product; error_type]
    (fun args => [product (arg_repr args); nil_error]).
Definition Delete : ReflectMethod :=
  mkReflectMethod "Delete" "" [recv_type; DeleteRequest] [error_type] (fun _ => [nil_error]).
Definition GetProduct : ReflectMethod :=
  mkReflectMethod "GetProduct" "" [recv_type; string_type] [Product; error_type]
    (fun args => [product ("id=" +:+ arg_repr args); nil_error]).
Definition List : ReflectMethod :=
  mkReflectMethod "List" "" [recv_type; ListRequest] [ProductSlice; error_type]
    (fun _ => [mkValue ProductSlice false "[]"; nil_error]).
Definition Update : ReflectMethod :=
  mkReflectMethod "Update" "" [recv_type; UpdateRequest] [Product; error_type]
    (fun args => [product (arg_repr args); nil_error]).

Definition ProductsService : Instance :=
  mkInstance 3 [Clean; Create; Delete; GetProduct; List; Update].

(** [rpcServer.RegisterService("products", productsService)] on
    [rpc.NewServer()], as [main] does. *)
Definition products_server : Server :=
  fst (RegisterService NewServer "products" (Some ProductsService)).

(** A request whose body never decodes. *)
Definition bad_event : RequestEvent :=
  mkRequestEvent "{" (fun _ _ => inl "unexpected EOF").

(** A service with [GetItem(id ItemID) (TestResponse, error)] for a named
    string type [type ItemID string], [GetBatch(req TestRequest)
    (TestResponse, error)], and [Health() HealthError] whose error result is
    a struct type implementing [error]. *)
Definition ItemID : GoType := mkGoType "main.ItemID" KString false.
Definition HealthError : GoType := mkGoType "main.HealthError" KStruct true.
Definition GetItem : ReflectMethod :=
  mkReflectMethod "GetItem" "" [recv_type; ItemID] [TestResponse; error_type]
    (fun args => [response (arg_repr args); nil_error]).
Definition Health : ReflectMethod :=
  mkReflectMethod "Health" "" [recv_type] [HealthError]
    (fun _ => [mkValue HealthError false "{}"]).
Definition GetBatch : ReflectMethod :=
  mkReflectMethod "GetBatch" "" [recv_type; TestRequest] [TestResponse; error_type]
    (fun args => [response (arg_repr args); nil_error]).
Definition EdgeService : Instance := mkInstance 4 [GetBatch; GetItem; Health].

Definition edge_server : Server := fst (RegisterService NewServer "edge" (Some EdgeService)).

End Products.


Example kebab_ex1 : kebabToPascal "get-user-profile" = "GetUserProfile".
Proof. reflexivity. Qed.
Example kebab_ex2 : kebabToPascal "UPPER-CASE" = "UpperCase".
Proof. reflexivity. Qed.
Example kebab_ex3 : kebabToPascal_spec e_acute = E_acute.
Proof. vm_compute. reflexivity. Qed.
Example kebab_ex4 : kebabToPascal e_acute =
  String.append (EncodeRune RuneError) (EncodeRune RuneError).
Proof. vm_compute. reflexivity. Qed.

(* ------------------------------------------------------------------ *)
(** ** Lemmas on the string model                                        *)
(* ------------------------------------------------------------------ *)

Module KebabFacts.

Ltac byte_cases c :=
  destruct c as [[|] [|] [|] [|] [|] [|] [|] [|]].

Lemma upper_rune (c : ascii) :
  (byte_val c <? 128)%N = true ->
  unicode_ToUpper (Z.of_N (byte_val c)) = Z.of_N (byte_val (ascii_upper c)) /\
  (byte_val (ascii_upper c) <? 128)%N = true.
Proof. intros H. byte_cases c; vm_compute in H |- *; try discriminate; split; reflexivity. Qed.

Lemma lower_rune (c : ascii) :
  (byte_val c <? 128)%N = true ->
  unicode_ToLower (Z.of_N (byte_val c)) = Z.of_N (byte_val (ascii_lower c)) /\
  (byte_val (ascii_lower c) <? 128)%N = true.
Proof. intros H. byte_cases c; vm_compute in H |- *; try discriminate; split; reflexivity. Qed.

Lemma encode_ascii (c : ascii) :
  (byte_val c <? 128)%N = true -> EncodeRune (Z.of_N (byte_val c)) = String c EmptyString.
Proof. intros H. byte_cases c; vm_compute in H |- *; try discriminate; reflexivity. Qed.

Lemma eqb_hyphen (c : ascii) : Ascii.eqb c "-"%char = (Z.of_N (byte_val c) =? 45)%Z.
Proof. byte_cases c; reflexivity. Qed.

Lemma decode_ascii (c : ascii) (s : string) :
  (byte_val c <? 128)%N = true -> DecodeRune (String c s) = (Z.of_N (byte_val c), 1%nat).
Proof. intros H. unfold DecodeRune. rewrite H. reflexivity. Qed.

Lemma runes_fuel_ascii (s : string) :
  forall fuel, isASCII s = true -> (String.length s <= fuel)%nat -> runes_fuel fuel s = bytes s.
Proof.
  induction s as [|c s IH]; intros fuel Ha Hl; destruct fuel as [|fuel];
    try reflexivity; [simpl in Hl; lia|].
  simpl in Ha, Hl. apply andb_prop in Ha as [Hc Ha].
  cbn [runes_fuel]. rewrite decode_ascii by exact Hc. cbn [drop bytes].
  f_equal. apply IH; [exact Ha | lia].
Qed.

Lemma runes_ascii (s : string) : isASCII s = true -> runes s = bytes s.
Proof. intros Ha. apply runes_fuel_ascii; [exact Ha | lia]. Qed.

Lemma split_bytes (s : string) : split_runes (bytes s) = map bytes (Split s).
Proof.
  induction s as [|c s IH]; simpl; [reflexivity|].
  rewrite IH, eqb_hyphen. destruct (Z.of_N (byte_val c) =? 45)%Z; [reflexivity|].
  destruct (Split s); reflexivity.
Qed.

Lemma Split_ascii (s : string) : isASCII s = true -> Forall (fun p => isASCII p = true) (Split s).
Proof.
  induction s as [|c s IH]; simpl; intros Ha.
  - constructor; [reflexivity | constructor].
  - apply andb_prop in Ha as [Hc Ha]. specialize (IH Ha).
    destruct (Ascii.eqb c "-"%char).
    + constructor; [reflexivity | exact IH].
    + destruct (Split s) as [|p ps]; inversion IH; subst.
      * constructor; [cbn [isASCII]; rewrite Hc; reflexivity | constructor].
      * constructor; [cbn [isASCII]; rewrite Hc; assumption | assumption].
Qed.

Lemma append_cons (x : ascii) (a b : string) :
  String.append (String x a) b = String x (String.append a b).
Proof. reflexivity. Qed.

Lemma append_nil (b : string) : String.append EmptyString b = b.
Proof. reflexivity. Qed.

Lemma append_assoc (a b c : string) :
  String.append a (String.append b c) = String.append (String.append a b) c.
Proof.
  induction a as [|x a IH]; [reflexivity|].
  rewrite !append_cons, IH. reflexivity.
Qed.

Lemma join_app (xs ys : list string) : join (xs ++ ys) = String.append (join xs) (join ys).
Proof.
  induction xs as [|x xs IH]; cbn [join app]; [reflexivity|].
  rewrite IH, append_assoc. reflexivity.
Qed.

Lemma encode_runes_app (a b : list Z) :
  encode_runes (a ++ b) = String.append (encode_runes a) (encode_runes b).
Proof. unfold encode_runes. rewrite map_app. apply join_app. Qed.

Lemma encode_runes_cons (r : Z) (rs : list Z) :
  encode_runes (r :: rs) = String.append (EncodeRune r) (encode_runes rs).
Proof. reflexivity. Qed.

Lemma lower_ascii (s : string) :
  isASCII s = true -> encode_runes (map unicode_ToLower (bytes s)) = string_map ascii_lower s.
Proof.
  induction s as [|c s IH]; simpl; intros Ha; [reflexivity|].
  apply andb_prop in Ha as [Hc Ha].
  destruct (lower_rune c Hc) as [Hl Hl'].
  cbn [map]. rewrite encode_runes_cons, Hl, encode_ascii by exact Hl'.
  rewrite IH by exact Ha. reflexivity.
Qed.

Lemma kebab_part_ascii (p : string) :
  isASCII p = true -> kebab_part p = encode_runes (capitalize_token (bytes p)).
Proof.
  destruct p as [|c p]; intros Ha; [reflexivity|].
  cbn [isASCII] in Ha. apply andb_prop in Ha as [Hc Ha].
  destruct (upper_rune c Hc) as [Hu Hu'].
  assert (E1 : substring 0 1 (String c p) = String c EmptyString) by (destruct p; reflexivity).
  assert (E2 : drop 1 (String c p) = p) by reflexivity.
  assert (E3 : (0 <? String.length (String c p))%nat = true) by reflexivity.
  unfold kebab_part. rewrite E1, E2, E3.
  unfold ToUpper, ToLower. cbn [isASCII]. rewrite Hc, Ha. cbn [andb string_map].
  cbn [capitalize_token bytes]. rewrite encode_runes_cons, Hu, encode_ascii by exact Hu'.
  rewrite lower_ascii by exact Ha. reflexivity.
Qed.

Lemma kebabToPascal_ascii (s : string) :
  isASCII s = true -> kebabToPascal s = kebabToPascal_spec s.
Proof.
  intros Ha. unfold kebabToPascal, kebabToPascal_spec.
  rewrite runes_ascii, split_bytes by exact Ha.
  pose proof (Split_ascii s Ha) as HF.
  induction (Split s) as [|p ps IH]; simpl; [reflexivity|].
  inversion HF; subst.
  rewrite encode_runes_app, kebab_part_ascii by assumption.
  f_equal. apply IH. assumption.
Qed.

End KebabFacts.

(* ------------------------------------------------------------------ *)
(** ** Lemmas on [RegisterService]                                       *)
(* ------------------------------------------------------------------ *)

Module RegistryFacts.

Lemma method_info_Method (m : ReflectMethod) (md : RPCMethod) :
  method_info m = Some md -> Method md = m.
Proof.
  destruct m as [nm pk ins outs f]. unfold method_info; cbn [PkgPath In_types Out_types].
  destruct (String.eqb pk ""); [|discriminate]. cbn [negb].
  destruct ins as [|r [|a [|b ins]]]; cbn -[nth_error]; try discriminate;
  destruct outs as [|o1 [|o2 [|o3 outs]]]; cbn; try discriminate;
  match goal with |- context [implements_error ?t] => destruct (implements_error t) end;
  cbn; intros H; inversion H; reflexivity.
Qed.

Lemma method_info_eligible (m : ReflectMethod) :
  In_types m <> [] -> (eligible m = true <-> exists md, method_info m = Some md).
Proof.
  destruct m as [nm pk ins outs f]. unfold method_info, eligible, trailing;
    cbn [PkgPath In_types Out_types]. intros Hin.
  destruct (String.eqb pk ""); cbn [negb andb];
    [| split; [discriminate | intros [md H]; discriminate]].
  destruct ins as [|r [|a [|b ins]]]; [congruence | | |];
  destruct outs as [|o1 [|o2 [|o3 outs]]]; cbn;
    try (split; [discriminate | intros [md H]; discriminate]);
  match goal with |- context [implements_error ?t] => destruct (implements_error t) end;
  cbn; try (split; [discriminate | intros [md H]; discriminate]);
  split; intros _; eauto; reflexivity.
Qed.

Lemma method_info_ok (m : ReflectMethod) (md : RPCMethod) :
  method_info m = Some md ->
  descriptor_ok (Name m) md /\
  (HasResult md = true <-> length (Out_types m) = 2%nat) /\
  (length (Out_types m) = 1%nat \/ length (Out_types m) = 2%nat) /\
  PkgPath m = "".
Proof.
  intros H. pose proof (method_info_Method m md H) as HM. revert H.
  destruct m as [nm pk ins outs f]. unfold method_info; cbn [PkgPath In_types Out_types Name].
  destruct (String.eqb pk "") eqn:Hpk; [|discriminate]. cbn [negb].
  apply String.eqb_eq in Hpk. subst pk.
  destruct ins as [|r [|a [|b ins]]]; cbn -[nth_error]; try discriminate;
  destruct outs as [|o1 [|o2 [|o3 outs]]]; cbn; try discriminate;
  match goal with |- context [implements_error ?t] => destruct (implements_error t) end;
  cbn; intros H; inversion H; subst; unfold descriptor_ok; cbn;
  repeat split; try congruence; try (intros t Ht; inversion Ht; subst; eauto); auto.
Qed.

Lemma register_methods_cons (m : ReflectMethod) (ms : list ReflectMethod)
  (acc : gmap string RPCMethod) :
  register_methods (m :: ms) acc =
  register_methods ms (match method_info m with
                       | Some info => <[Name m := info]> acc
                       | None => acc
                       end).
Proof. reflexivity. Qed.

(** Every stored entry satisfies [P] when the initial table does and every
    descriptor [method_info] builds does, under its method's name. *)
Lemma register_methods_forall (P : string -> RPCMethod -> Prop)
  (ms : list ReflectMethod) (acc : gmap string RPCMethod) :
  (forall k md, acc !! k = Some md -> P k md) ->
  (forall m md, In m ms -> method_info m = Some md -> P (Name m) md) ->
  forall k md, register_methods ms acc !! k = Some md -> P k md.
Proof.
  revert acc. induction ms as [|m ms IH]; intros acc Hacc Hms; [exact Hacc|].
  rewrite register_methods_cons. apply IH.
  - intros k md. destruct (method_info m) as [info|] eqn:Hi; [|apply Hacc].
    rewrite lookup_insert. case_decide as Heq.
    + intros Hk. inversion Hk; subst. apply Hms; [left; reflexivity | exact Hi].
    + apply Hacc.
  - intros m' md Hin Hi. apply Hms; [right; exact Hin | exact Hi].
Qed.

Lemma register_methods_notin (ms : list ReflectMethod) (acc : gmap string RPCMethod)
  (k : string) :
  (forall m, In m ms -> Name m <> k) -> register_methods ms acc !! k = acc !! k.
Proof.
  revert acc. induction ms as [|m ms IH]; intros acc Hk; [reflexivity|].
  rewrite register_methods_cons, IH by (intros m' Hin; apply Hk; right; exact Hin).
  destruct (method_info m); [|reflexivity].
  apply lookup_insert_ne. apply Hk. left. reflexivity.
Qed.

Lemma register_methods_present (ms : list ReflectMethod) (acc : gmap string RPCMethod)
  (m : ReflectMethod) (md : RPCMethod) :
  NoDup (map Name ms) -> In m ms -> method_info m = Some md ->
  register_methods ms acc !! Name m = Some md.
Proof.
  revert acc. induction ms as [|m0 ms IH]; intros acc Hnd Hin Hi; [destruct Hin|].
  cbn [map] in Hnd. apply NoDup_cons in Hnd as [Hnotin Hnd].
  rewrite register_methods_cons. destruct Hin as [<-|Hin].
  - rewrite register_methods_notin.
    + rewrite Hi. apply lookup_insert_eq.
    + intros m' Hm' Heq. apply Hnotin. rewrite <- Heq. apply list_elem_of_In, in_map. exact Hm'.
  - apply IH; assumption.
Qed.

Lemma NoDup_map_filter {A B} (f : A -> B) (p : A -> bool) (l : list A) :
  NoDup (map f l) -> NoDup (map f (List.filter p l)).
Proof.
  induction l as [|x l IH]; intros Hnd; cbn; [constructor|].
  cbn in Hnd. apply NoDup_cons in Hnd as [Hx Hnd].
  destruct (p x); cbn; [|apply IH, Hnd].
  constructor; [|apply IH, Hnd].
  intros Hin. apply Hx. apply list_elem_of_In in Hin. apply list_elem_of_In.
  apply in_map_iff in Hin as [y [Hy Hin]]. apply in_map_iff. exists y.
  split; [exact Hy|]. apply filter_In in Hin. apply Hin.
Qed.

Lemma NoDup_map_eq {A B} (f : A -> B) (l : list A) (a b : A) :
  NoDup (map f l) -> In a l -> In b l -> f a = f b -> a = b.
Proof.
  induction l as [|x l IH]; intros Hnd Ha Hb Hf; [destruct Ha|].
  cbn in Hnd. apply NoDup_cons in Hnd as [Hx Hnd].
  destruct Ha as [<-|Ha], Hb as [<-|Hb]; try reflexivity.
  - exfalso. apply Hx. apply list_elem_of_In. rewrite Hf. apply in_map. exact Hb.
  - exfalso. apply Hx. apply list_elem_of_In. rewrite <- Hf. apply in_map. exact Ha.
  - apply IH; assumption.
Qed.

Lemma In_type_methods (inst : Instance) (m : ReflectMethod) :
  In m (type_methods inst) <-> In m (inst_methods inst) /\ PkgPath m = "".
Proof.
  unfold type_methods. rewrite filter_In. rewrite String.eqb_eq. reflexivity.
Qed.

Lemma introspect_lookup (name : string) (inst : Instance) (k : string) (md : RPCMethod) :
  methods (introspect name (Some inst)) !! k = Some md ->
  In (Method md) (type_methods inst) /\ Name (Method md) = k /\ method_info (Method md) = Some md.
Proof.
  cbn [introspect methods]. intros H.
  pose proof (register_methods_forall
    (fun k md => exists m, In m (type_methods inst) /\ Name m = k /\ method_info m = Some md)
    (type_methods inst) ∅) as HF.
  destruct (HF (fun k md Hk => ltac:(rewrite lookup_empty in Hk; discriminate))
               (fun m md Hin Hi => ex_intro _ m (conj Hin (conj eq_refl Hi))) k md H)
    as [m [Hin [Hk Hi]]].
  rewrite (method_info_Method m md Hi). auto.
Qed.

Lemma introspect_descriptor_ok (name : string) (inst : option Instance) (k : string)
  (md : RPCMethod) :
  methods (introspect name inst) !! k = Some md -> descriptor_ok k md.
Proof.
  destruct inst as [inst|]; [|cbn; rewrite lookup_empty; discriminate].
  intros H. apply introspect_lookup in H as [_ [Hk Hi]].
  subst k. apply (method_info_ok _ _ Hi).
Qed.

Lemma eligible_exported (m : ReflectMethod) : eligible m = true -> PkgPath m = "".
Proof.
  unfold eligible. intros H. repeat apply andb_prop in H as [H _].
  apply String.eqb_eq. exact H.
Qed.

Lemma wf_instance_method (inst : Instance) (m : ReflectMethod) :
  wf_instance inst -> In m (inst_methods inst) -> wf_method m.
Proof. intros [_ Hwf] Hin. exact (proj1 (List.Forall_forall _ _) Hwf m Hin). Qed.

Lemma wf_instance_NoDup (inst : Instance) :
  wf_instance inst -> NoDup (map Name (type_methods inst)).
Proof. intros [Hnd _]. apply NoDup_map_filter. exact Hnd. Qed.

Lemma RegisterService_lookup (s : Server) (name : string) (inst : option Instance) :
  services (fst (RegisterService s name inst)) !! name = Some (introspect name inst).
Proof. apply lookup_insert_eq. Qed.

Lemma reachable_services (s : Server) :
  reachable s ->
  forall n svc, services s !! n = Some svc ->
    svc = introspect n (service svc) /\ (forall i, service svc = Some i -> wf_instance i).
Proof.
  induction 1 as [|s name inst Hr IH Hwf]; intros n svc Hn.
  - cbn in Hn. rewrite lookup_empty in Hn. discriminate.
  - cbn in Hn. rewrite lookup_insert in Hn. case_decide as Heq.
    + subst n. inversion Hn; subst svc.
      destruct inst as [i|]; cbn; (split; [reflexivity|]).
      * exact Hwf.
      * intros i' Hi'. discriminate.
    + exact (IH n svc Hn).
Qed.

Lemma find_name (l : list ReflectMethod) (m : ReflectMethod) :
  NoDup (map Name l) -> In m l -> List.find (fun m' => String.eqb (Name m') (Name m)) l = Some m.
Proof.
  induction l as [|x l IH]; intros Hnd Hin; [destruct Hin|].
  cbn in Hnd. apply NoDup_cons in Hnd as [Hx Hnd]. cbn.
  destruct (String.eqb (Name x) (Name m)) eqn:Heq.
  - apply String.eqb_eq in Heq. f_equal.
    destruct Hin as [->|Hin]; [reflexivity|].
    exfalso. apply Hx. apply list_elem_of_In. rewrite Heq. apply in_map. exact Hin.
  - destruct Hin as [->|Hin]; [rewrite String.eqb_refl in Heq; discriminate|].
    apply IH; assumption.
Qed.

Lemma registered_method (s : Server) (serv k : string) (svc : RPCService) (md : RPCMethod) :
  reachable s -> services s !! serv = Some svc -> methods svc !! k = Some md ->
  MethodByName (service svc) (Name (Method md)) = Some (Method md) /\
  wf_method (Method md) /\ method_info (Method md) = Some md.
Proof.
  intros Hr Hs Hk. destruct (reachable_services s Hr serv svc Hs) as [Hsvc Hwf].
  destruct (service svc) as [inst|] eqn:Hsv.
  - rewrite Hsvc in Hk. specialize (Hwf inst eq_refl).
    apply introspect_lookup in Hk as [Hin [_ Hi]].
    split; [|split; [|exact Hi]].
    + cbn. apply find_name; [apply wf_instance_NoDup, Hwf | exact Hin].
    + apply In_type_methods in Hin as [Hin _]. exact (wf_instance_method inst _ Hwf Hin).
  - rewrite Hsvc in Hk. cbn in Hk. rewrite lookup_empty in Hk. discriminate.
Qed.

Lemma Call_results (m : ReflectMethod) (args results : list Value) :
  wf_method m -> Call m args = Some results -> length results = length (Out_types m).
Proof.
  intros [_ Hlen]. unfold Call. destruct (args_match args (tail (In_types m))); [|discriminate].
  intros H. inversion H. apply Hlen.
Qed.

Lemma results_shape (m : ReflectMethod) (md : RPCMethod) :
  method_info m = Some md -> length (Out_types m) = (if HasResult md then 2 else 1)%nat.
Proof.
  intros Hi. destruct (method_info_ok m md Hi) as [_ [Hr [Hlen _]]].
  destruct (HasResult md); [apply Hr; reflexivity|].
  destruct Hlen as [Hlen|Hlen]; [exact Hlen|]. apply Hr in Hlen. discriminate.
Qed.

(** On a reachable server, a request that calls a method gets the response
    [check_results] builds from that method's descriptor and the results of
    the call, whose number is the one the descriptor declares. *)
Lemma dispatch_call (s : Server) (e : RequestEvent) (serv name id : string)
  (resp : Response) (tr : list Event) (nm : string) (args results : list Value) :
  reachable s ->
  (handleRPC s e serv name = (resp, tr) \/ handleRPCGet s e serv name id = (resp, tr)) ->
  In (EvCall nm args results) tr ->
  exists md, resp = check_results md results /\
             length results = (if HasResult md then 2 else 1)%nat.
Proof.
  intros Hr [H|H] Hin.
  - unfold handleRPC in H.
    destruct (services s !! serv) as [svc|] eqn:Hs; [|inversion H; subst; destruct Hin].
    destruct (methods svc !! name) as [md|] eqn:Hm; [|inversion H; subst; destruct Hin].
    destruct (registered_method s serv name svc md Hr Hs Hm) as [HM [Hwf Hi]].
    rewrite HM in H. exists md.
    destruct (HasParams md).
    + destruct (Type' md) as [t|]; [|inversion H; subst; destruct Hin].
      destruct (BindBody e t (req_body e)) as [err|arg].
      { inversion H; subst. destruct Hin as [Hin|[]]. discriminate. }
      destruct (Call (Method md) [arg]) as [res|] eqn:Hc.
      2: { inversion H; subst. destruct Hin as [Hin|[]]. discriminate. }
      inversion H; subst. destruct Hin as [Hin|[Hin|[]]]; [discriminate|].
      inversion Hin; subst. split; [reflexivity|].
      rewrite (Call_results _ _ _ Hwf Hc). apply results_shape. exact Hi.
    + destruct (Call (Method md) []) as [res|] eqn:Hc; [|inversion H; subst; destruct Hin].
      inversion H; subst. destruct Hin as [Hin|[]].
      inversion Hin; subst. split; [reflexivity|].
      rewrite (Call_results _ _ _ Hwf Hc). apply results_shape. exact Hi.
  - unfold handleRPCGet in H.
    destruct (services s !! serv) as [svc|] eqn:Hs; [|inversion H; subst; destruct Hin].
    cbv zeta in H.
    destruct (methods svc !! ("Get" +:+ name)) as [md|] eqn:Hm;
      [|inversion H; subst; destruct Hin].
    destruct (registered_method s serv _ svc md Hr Hs Hm) as [HM [Hwf Hi]].
    rewrite HM in H. exists md.
    destruct (Type' md) as [t|]; [|inversion H; subst; destruct Hin].
    destruct (bool_decide (type_kind t <> KString)); [inversion H; subst; destruct Hin|].
    destruct (Call (Method md) [string_value id]) as [res|] eqn:Hc;
      [|inversion H; subst; destruct Hin].
    inversion H; subst. destruct Hin as [Hin|[]].
    inversion Hin; subst. split; [reflexivity|].
    rewrite (Call_results _ _ _ Hwf Hc). apply results_shape. exact Hi.
Qed.

End RegistryFacts.

(* ------------------------------------------------------------------ *)
(** ** The claims                                                        *)
(* ------------------------------------------------------------------ *)

Import RegistryFacts.

(** C1: for a non-nil instance, [RegisterService] succeeds and the stored
    method table holds exactly the eligible methods of the instance
    (exported, zero or one parameter beyond the receiver, one or two
    results, the last implementing [error]), each under its own name. *)
Theorem RegisterService_eligible_methods (s : Server) (name : string) (inst : Instance) :
  wf_instance inst ->
  snd (RegisterService s name (Some inst)) = None /\
  exists svc, services (fst (RegisterService s name (Some inst))) !! name = Some svc /\
    (forall m, In m (inst_methods inst) ->
       (eligible m = true <-> exists md, methods svc !! Name m = Some md /\ Method md = m)) /\
    (forall k md, methods svc !! k = Some md ->
       In (Method md) (inst_methods inst) /\ Name (Method md) = k /\
       eligible (Method md) = true).
Proof.
  intros Hwf. split; [reflexivity|].
  exists (introspect name (Some inst)). split; [apply RegisterService_lookup|]. split.
  - intros m Hin. destruct (wf_instance_method inst m Hwf Hin) as [Hrecv _]. split.
    + intros He. pose proof (proj1 (method_info_eligible m Hrecv) He) as [md Hi].
      exists md. split; [|exact (method_info_Method m md Hi)].
      cbn [introspect methods]. apply register_methods_present;
        [apply wf_instance_NoDup, Hwf | | exact Hi].
      apply In_type_methods. split; [exact Hin | apply eligible_exported, He].
    + intros [md [Hl HM]]. apply introspect_lookup in Hl as [_ [_ Hi]].
      rewrite HM in Hi. apply (method_info_eligible m Hrecv). eauto.
  - intros k md Hl. apply introspect_lookup in Hl as [Hin [Hk Hi]].
    apply In_type_methods in Hin as [Hin _].
    split; [exact Hin|]. split; [exact Hk|].
    destruct (wf_instance_method inst _ Hwf Hin) as [Hrecv _].
    apply (method_info_eligible _ Hrecv). eauto.
Qed.

Lemma wf_TestService : wf_instance Fixture.TestService.
Proof.
  split.
  - apply (bool_decide_unpack _). vm_compute. reflexivity.
  - repeat constructor; intros; discriminate.
Qed.

Lemma RegisterService_eligible_methods_witness :
  wf_instance Fixture.TestService /\
  snd (RegisterService NewServer "test" (Some Fixture.TestService)) = None.
Proof.
  split; [exact wf_TestService|].
  exact (proj1 (RegisterService_eligible_methods NewServer "test" Fixture.TestService
                  wf_TestService)).
Defined.

(** C3, as stated (on all strings): refuted. [kebabToPascal] takes the first
    byte of a token as its first character: on ["é"] (bytes [C3 A9]) it
    upper-cases the lone byte [C3] and lower-cases the lone byte [A9], each of
    which [strings.Map] replaces by U+FFFD, so the result is not ["É"]. *)
Lemma kebabToPascal_non_ascii_counterexample :
  kebabToPascal e_acute <> kebabToPascal_spec e_acute.
Proof. vm_compute. discriminate. Qed.

(** C3, amended: [kebabToPascal] is a total function; on ASCII strings it
    capitalises the first character of each hyphen-delimited token,
    lowercases the remainder and concatenates the tokens (the character-level
    reading [kebabToPascal_spec]); and it maps [""], ["single"],
    ["get-user-profile"], ["UPPER-CASE"] and ["mixed-Case"] as listed. *)
Theorem kebabToPascal_ascii_spec :
  (forall s, isASCII s = true -> kebabToPascal s = kebabToPascal_spec s) /\
  kebabToPascal "" = "" /\ kebabToPascal "single" = "Single" /\
  kebabToPascal "get-user-profile" = "GetUserProfile" /\
  kebabToPascal "UPPER-CASE" = "UpperCase" /\ kebabToPascal "mixed-Case" = "MixedCase".
Proof.
  split; [exact KebabFacts.kebabToPascal_ascii|].
  repeat split; reflexivity.
Qed.

Lemma kebabToPascal_ascii_spec_witness :
  isASCII "multiple-words-test" = true /\
  kebabToPascal "multiple-words-test" = kebabToPascal_spec "multiple-words-test".
Proof.
  split; [reflexivity|].
  apply (proj1 kebabToPascal_ascii_spec). reflexivity.
Defined.

(** C2 (code defect): a fetch-by-id request that resolves to a parameterless
    [Get<Entity>] method does not get the signature-mismatch response:
    [method.Type] is nil there and [argType.Kind()] panics. On the test
    fixture, [GET /test/stats/1] resolves to [GetStats()]. *)
Theorem handleGet_parameterless_panics :
  handleGet Fixture.test_server (Fixture.event "") "test" "stats" "1" = (Panic nil_deref, []).
Proof. vm_compute. reflexivity. Qed.

(** C4: on the invoke-by-name path, an unknown service gives the NotFound
    service-not-found response and an unknown (converted) method of a known
    service the NotFound method-not-found response, in both cases with no
    binding and no call. *)
Theorem handle_not_found (s : Server) (e : RequestEvent) (serv slug : string) :
  (services s !! serv = None ->
   handle s e serv slug = (JSON StatusNotFound
     (ErrorBody ("Service '" +:+ serv +:+ "' not found")), [])) /\
  (forall svc, services s !! serv = Some svc ->
   methods svc !! kebabToPascal slug = None ->
   handle s e serv slug = (JSON StatusNotFound
     (ErrorBody ("Method '" +:+ kebabToPascal slug +:+ "' not found in service '"
                 +:+ serv +:+ "'")), [])).
Proof.
  unfold handle, handleRPC. split.
  - intros H. rewrite H. reflexivity.
  - intros svc H Hm. rewrite H, Hm. reflexivity.
Qed.

Lemma handle_not_found_witness :
  services Fixture.test_server !! "orders" = None /\
  handle Fixture.test_server (Fixture.event "") "orders" "create-order" =
    (JSON StatusNotFound (ErrorBody "Service 'orders' not found"), []) /\
  handle Fixture.test_server (Fixture.event "") "test" "unknown-method" =
    (JSON StatusNotFound
       (ErrorBody "Method 'UnknownMethod' not found in service 'test'"), []).
Proof.
  split; [vm_compute; reflexivity|]. split.
  - apply (proj1 (handle_not_found Fixture.test_server (Fixture.event "") "orders"
                    "create-order")).
    vm_compute. reflexivity.
  - apply (proj2 (handle_not_found Fixture.test_server (Fixture.event "") "test"
                    "unknown-method") (introspect "test" (Some Fixture.TestService)));
      vm_compute; reflexivity.
Defined.

(** C6: registering again under a name replaces the whole descriptor: the
    registry after [register(register(s, n, a), n, b)] equals the one after
    [register(s, n, b)], it maps [n] to the descriptor built from [b] alone,
    and a method name absent from that descriptor is not found on either
    path. *)
Theorem RegisterService_reregister (s : Server) (n : string) (a b : option Instance)
  (e : RequestEvent) :
  fst (RegisterService (fst (RegisterService s n a)) n b) = fst (RegisterService s n b) /\
  services (fst (RegisterService (fst (RegisterService s n a)) n b)) !! n
    = Some (introspect n b) /\
  (forall k, methods (introspect n b) !! k = None ->
     handleRPC (fst (RegisterService (fst (RegisterService s n a)) n b)) e n k
       = (method_not_found k n, [])) /\
  (forall entity id, methods (introspect n b) !! ("Get" +:+ entity) = None ->
     handleRPCGet (fst (RegisterService (fst (RegisterService s n a)) n b)) e n entity id
       = (method_not_found ("Get" +:+ entity) n, [])).
Proof.
  assert (Hs : fst (RegisterService (fst (RegisterService s n a)) n b)
               = fst (RegisterService s n b)).
  { cbn. f_equal. apply insert_insert_eq. }
  rewrite Hs. split; [reflexivity|]. split; [apply RegisterService_lookup|]. split.
  - intros k Hk. unfold handleRPC. rewrite RegisterService_lookup, Hk. reflexivity.
  - intros entity id Hk. unfold handleRPCGet. rewrite RegisterService_lookup.
    cbv zeta. rewrite Hk. reflexivity.
Qed.

(** C7: [RegisterService] always returns a nil error, and a nil instance is
    registered under its name with an empty method table. *)
Theorem RegisterService_never_fails (s : Server) (name : string) (inst : option Instance) :
  snd (RegisterService s name inst) = None /\
  (inst = None ->
   exists svc, services (fst (RegisterService s name inst)) !! name = Some svc /\
               service svc = None /\ methods svc = ∅).
Proof.
  split; [reflexivity|]. intros ->.
  exists (introspect name None). split; [apply RegisterService_lookup|].
  split; reflexivity.
Qed.

(** C9: every descriptor stored by [RegisterService] is consistent:
    [HasParams] iff [Type] is non-nil, and [Type] is then the sole argument
    type; [HasResult] iff [ResultType] is non-nil, and [ResultType] is then
    the first result type; its key is the method's name. *)
Theorem RegisterService_descriptor_ok (s : Server) (name : string) (inst : option Instance)
  (k : string) (md : RPCMethod) :
  (exists svc, services (fst (RegisterService s name inst)) !! name = Some svc /\
               methods svc !! k = Some md) ->
  descriptor_ok k md.
Proof.
  intros [svc [Hs Hk]]. rewrite RegisterService_lookup in Hs. inversion Hs; subst svc.
  exact (introspect_descriptor_ok name inst k md Hk).
Qed.

(** C10: registering under [n] leaves the entry of every other name as it
    was. *)
Theorem RegisterService_frame (s : Server) (n m : string) (inst : option Instance) :
  m <> n -> services (fst (RegisterService s n inst)) !! m = services s !! m.
Proof. intros Hne. cbn. apply lookup_insert_ne. congruence. Qed.


Lemma RegisterService_descriptor_ok_witness :
  (exists svc, services Fixture.test_server !! "test" = Some svc /\
               methods svc !! "CreateUser" = Some (mkRPCMethod Fixture.CreateUser
                 (Some Fixture.TestRequest) true true (Some Fixture.TestResponse))) /\
  descriptor_ok "CreateUser" (mkRPCMethod Fixture.CreateUser
                 (Some Fixture.TestRequest) true true (Some Fixture.TestResponse)).
Proof.
  assert (H : exists svc, services Fixture.test_server !! "test" = Some svc /\
               methods svc !! "CreateUser" = Some (mkRPCMethod Fixture.CreateUser
                 (Some Fixture.TestRequest) true true (Some Fixture.TestResponse))).
  { exists (introspect "test" (Some Fixture.TestService)). split; vm_compute; reflexivity. }
  split; [exact H|].
  exact (RegisterService_descriptor_ok NewServer "test" (Some Fixture.TestService)
           "CreateUser" _ H).
Defined.

Lemma RegisterService_frame_witness :
  "user" <> "order" /\
  services (fst (RegisterService Fixture.test_server "order" (Some Fixture.OrderService)))
    !! "user" = services Fixture.test_server !! "user".
Proof.
  assert (Hne : "user" <> "order") by discriminate.
  split; [exact Hne|].
  exact (RegisterService_frame Fixture.test_server "order" "user"
           (Some Fixture.OrderService) Hne).
Defined.

(** C5: on a server set up by [RegisterService] calls, whenever the called
    method's trailing (failure) result is a non-nil value, the response is
    InternalError with that error value itself as the body, whether or not
    the method also has a result value. *)
Theorem dispatch_method_failure (s : Server) (e : RequestEvent) (serv name id : string)
  (resp : Response) (tr : list Event) (nm : string) (args results : list Value)
  (err : Value) :
  reachable s ->
  (handleRPC s e serv name = (resp, tr) \/ handleRPCGet s e serv name id = (resp, tr)) ->
  In (EvCall nm args results) tr ->
  trailing results = Some err -> IsNil err = Some false ->
  resp = JSON StatusInternalServerError (FailureBody err).
Proof.
  intros Hr Hh Hin Ht Hnil.
  destruct (dispatch_call s e serv name id resp tr nm args results Hr Hh Hin) as [md [-> Hlen]].
  unfold check_results.
  destruct (HasResult md); destruct results as [|r0 [|r1 [|r2 rs]]]; cbn in Hlen;
    try discriminate; cbn in Ht; inversion Ht; subst; cbn; rewrite Hnil; reflexivity.
Qed.

Lemma reachable_order_server :
  reachable (fst (RegisterService NewServer "orders" (Some Fixture.OrderService))).
Proof.
  apply reachable_register; [constructor|].
  intros i Hi. inversion Hi; subst. split.
  - apply (bool_decide_unpack _). vm_compute. reflexivity.
  - repeat constructor; intros; discriminate.
Qed.

Lemma dispatch_method_failure_witness :
  fst (handleGet (fst (RegisterService NewServer "orders" (Some Fixture.OrderService)))
         (Fixture.event "") "orders" "order" "7")
  = JSON StatusInternalServerError (FailureBody Fixture.order_error).
Proof.
  apply (dispatch_method_failure
           (fst (RegisterService NewServer "orders" (Some Fixture.OrderService)))
           (Fixture.event "") "orders" "Order" "7" _
           (snd (handleGet (fst (RegisterService NewServer "orders"
                                   (Some Fixture.OrderService)))
                  (Fixture.event "") "orders" "order" "7"))
           "GetOrder" [string_value "7"] [Fixture.response ""; Fixture.order_error]).
  - exact reachable_order_server.
  - right. vm_compute. reflexivity.
  - vm_compute. left. reflexivity.
  - reflexivity.
  - reflexivity.
Defined.

(** C8: on a server set up by [RegisterService] calls, whenever a method with
    a single (failure) result is called and returns a nil error, the
    response is OK with the body [map[string]string{"status": "ok"}], on the
    invoke-by-name and on the fetch-by-id path. *)
Theorem dispatch_failure_only_ok (s : Server) (e : RequestEvent) (serv name id : string)
  (resp : Response) (tr : list Event) (nm : string) (args : list Value) (err : Value) :
  reachable s ->
  (handleRPC s e serv name = (resp, tr) \/ handleRPCGet s e serv name id = (resp, tr)) ->
  In (EvCall nm args [err]) tr -> IsNil err = Some true ->
  resp = JSON StatusOK (MapBody [("status", "ok")]).
Proof.
  intros Hr Hh Hin Hnil.
  destruct (dispatch_call s e serv name id resp tr nm args [err] Hr Hh Hin) as [md [-> Hlen]].
  unfold check_results. destruct (HasResult md); cbn in Hlen; [discriminate|].
  cbn. rewrite Hnil. reflexivity.
Qed.

Lemma reachable_test_server : reachable Fixture.test_server.
Proof.
  apply reachable_register; [constructor|].
  intros i Hi. inversion Hi; subst. exact wf_TestService.
Qed.

Lemma dispatch_failure_only_ok_witness :
  fst (handle Fixture.test_server (Fixture.event "{}") "test" "refresh-cache")
  = JSON StatusOK (MapBody [("status", "ok")]).
Proof.
  apply (dispatch_failure_only_ok Fixture.test_server (Fixture.event "{}") "test"
           "RefreshCache" "" _
           (snd (handle Fixture.test_server (Fixture.event "{}") "test" "refresh-cache"))
           "RefreshCache" [] Fixture.nil_error).
  - exact reachable_test_server.
  - left. vm_compute. reflexivity.
  - vm_compute. left. reflexivity.
  - reflexivity.
Defined.

(* ------------------------------------------------------------------ *)
(** ** Further lemmas on the dispatcher and on [kebabToPascal]          *)
(* ------------------------------------------------------------------ *)

Module DispatchFacts.

Lemma IsNil_nilable (v : Value) :
  nilable_kind (type_kind (val_type v)) = true -> IsNil v = Some (val_nil v).
Proof. unfold IsNil. destruct (type_kind (val_type v)); cbn; congruence. Qed.

Lemma type_eqb_refl (t : GoType) : type_eqb t t = true.
Proof.
  unfold type_eqb. rewrite String.eqb_refl, bool_decide_eq_true_2 by reflexivity.
  destruct (implements_error t); reflexivity.
Qed.

Lemma Call_Func (m : ReflectMethod) (args results : list Value) :
  Call m args = Some results -> results = Func m args.
Proof.
  unfold Call. destruct (args_match args (tail (In_types m))); [|discriminate].
  intros H. inversion H. reflexivity.
Qed.

Lemma method_info_params (m : ReflectMethod) (md : RPCMethod) :
  method_info m = Some md ->
  (HasParams md = true /\ exists recv t, In_types m = [recv; t] /\ Type' md = Some t) \/
  (HasParams md = false /\ Type' md = None /\ exists recv, In_types m = [recv]).
Proof.
  destruct m as [nm pk ins outs f]. unfold method_info; cbn [PkgPath In_types Out_types].
  destruct (String.eqb pk ""); [|discriminate]. cbn [negb].
  destruct ins as [|r [|a [|b ins]]]; cbn -[nth_error]; try discriminate;
  destruct outs as [|o1 [|o2 [|o3 outs]]]; cbn; try discriminate;
  match goal with |- context [implements_error ?t] => destruct (implements_error t) end;
  cbn; intros H; inversion H; subst; cbn;
  first [left; split; [reflexivity | eauto] | right; split; [reflexivity | eauto]].
Qed.

(** [check_results] does not panic on the results of a method whose calls
    return values of its declared types, the last one nilable. *)
Lemma check_results_safe (m : ReflectMethod) (md : RPCMethod) (args : list Value)
  (msg : string) :
  method_info m = Some md -> typed_results m -> check_results md (Func m args) <> Panic msg.
Proof.
  intros Hi [Hty Hnil]. pose proof (results_shape m md Hi) as Hlen.
  rewrite <- (Hty args) in Hlen, Hnil. rewrite length_map in Hlen.
  remember (Func m args) as res eqn:Hres. clear Hres Hty.
  unfold check_results. destruct (HasResult md);
    destruct res as [|r0 [|r1 [|r2 rs]]]; cbn in Hlen; try discriminate;
    cbn in Hnil |- *.
  - rewrite (IsNil_nilable r1) by (apply Hnil; reflexivity).
    destruct (val_nil r1); discriminate.
  - rewrite (IsNil_nilable r0) by (apply Hnil; reflexivity).
    destruct (val_nil r0); discriminate.
Qed.

(** The descriptor found under a key of a reachable server: its method is
    the one [MethodByName] resolves, named by the key, and built by
    [method_info]. *)
Lemma registered_descriptor (s : Server) (serv k : string) (svc : RPCService)
  (md : RPCMethod) :
  reachable s -> services s !! serv = Some svc -> methods svc !! k = Some md ->
  MethodByName (service svc) (Name (Method md)) = Some (Method md) /\
  method_info (Method md) = Some md /\ wf_method (Method md) /\
  Name (Method md) = k /\ descriptor_ok k md.
Proof.
  intros Hr Hs Hk. destruct (registered_method s serv k svc md Hr Hs Hk) as [HM [Hwf Hi]].
  destruct (reachable_services s Hr serv svc Hs) as [Hsvc _].
  rewrite Hsvc in Hk. pose proof (introspect_descriptor_ok _ _ _ _ Hk) as Hok.
  split; [exact HM|]. split; [exact Hi|]. split; [exact Hwf|].
  split; [symmetry; apply Hok | exact Hok].
Qed.

End DispatchFacts.

Module KebabShape.

Import KebabFacts.

Ltac byte_cases c :=
  destruct c as [[|] [|] [|] [|] [|] [|] [|] [|]].

Lemma upper_ascii_byte (c : ascii) :
  (byte_val (ascii_upper c) <? 128)%N = (byte_val c <? 128)%N /\
  Ascii.eqb (ascii_upper c) "-"%char = Ascii.eqb c "-"%char.
Proof. byte_cases c; split; reflexivity. Qed.

Lemma lower_ascii_byte (c : ascii) :
  (byte_val (ascii_lower c) <? 128)%N = (byte_val c <? 128)%N /\
  Ascii.eqb (ascii_lower c) "-"%char = Ascii.eqb c "-"%char.
Proof. byte_cases c; split; reflexivity. Qed.

Lemma upper_lower_capital (c : ascii) :
  is_upper_byte c = true -> ascii_upper (ascii_lower c) = c.
Proof. byte_cases c; vm_compute; intros H; try discriminate; reflexivity. Qed.

Lemma lower_capital (c : ascii) :
  is_upper_byte c = true ->
  (byte_val (ascii_lower c) <? 128)%N = true /\ Ascii.eqb (ascii_lower c) "-"%char = false.
Proof. byte_cases c; vm_compute; intros H; try discriminate; split; reflexivity. Qed.

Lemma lower_tail_byte (c : ascii) : word_tail_byte c = true -> ascii_lower c = c.
Proof. byte_cases c; vm_compute; intros H; try discriminate; reflexivity. Qed.

Lemma tail_byte_ascii (c : ascii) :
  word_tail_byte c = true ->
  (byte_val c <? 128)%N = true /\ Ascii.eqb c "-"%char = false.
Proof. byte_cases c; vm_compute; intros H; try discriminate; split; reflexivity. Qed.

Lemma string_map_length (f : ascii -> ascii) (s : string) :
  String.length (string_map f s) = String.length s.
Proof. induction s as [|c s IH]; cbn; [reflexivity | rewrite IH; reflexivity]. Qed.

Lemma lower_map_shape (s : string) :
  isASCII (string_map ascii_lower s) = isASCII s /\
  hyphens (string_map ascii_lower s) = hyphens s.
Proof.
  induction s as [|c s [IH1 IH2]]; cbn; [split; reflexivity|].
  destruct (lower_ascii_byte c) as [H1 H2]. rewrite H1, H2, IH1, IH2. split; reflexivity.
Qed.

Lemma length_append (a b : string) :
  String.length (String.append a b) = (String.length a + String.length b)%nat.
Proof. induction a as [|c a IH]; [reflexivity|]. rewrite append_cons. cbn. rewrite IH. reflexivity. Qed.

Lemma hyphens_append (a b : string) : hyphens (String.append a b) = (hyphens a + hyphens b)%nat.
Proof.
  induction a as [|c a IH]; [reflexivity|]. rewrite append_cons. cbn. rewrite IH. lia.
Qed.

Lemma isASCII_append (a b : string) : isASCII (String.append a b) = isASCII a && isASCII b.
Proof.
  induction a as [|c a IH]; [reflexivity|]. rewrite append_cons. cbn. rewrite IH.
  apply andb_assoc.
Qed.

(** On an ASCII part, the loop body keeps the bytes' number, their being
    ASCII and their being hyphens. *)
Lemma kebab_part_shape (p : string) :
  isASCII p = true ->
  String.length (kebab_part p) = String.length p /\ isASCII (kebab_part p) = true /\
  hyphens (kebab_part p) = hyphens p.
Proof.
  destruct p as [|c p]; intros Ha; [repeat split; reflexivity|].
  cbn [isASCII] in Ha. apply andb_prop in Ha as [Hc Ha].
  assert (E1 : substring 0 1 (String c p) = String c EmptyString) by (destruct p; reflexivity).
  assert (E2 : drop 1 (String c p) = p) by reflexivity.
  assert (E3 : (0 <? String.length (String c p))%nat = true) by reflexivity.
  unfold kebab_part. rewrite E1, E2, E3.
  unfold ToUpper, ToLower. cbn [isASCII]. rewrite Hc, Ha. cbn [andb string_map].
  rewrite append_cons, append_nil.
  destruct (upper_ascii_byte c) as [Hu1 Hu2]. destruct (lower_map_shape p) as [Hl1 Hl2].
  cbn [String.length isASCII hyphens].
  rewrite string_map_length, Hu1, Hc, Hl1, Ha, Hl2, Hu2. repeat split.
Qed.

(** The parts of [Split] have no hyphen; their lengths add up to the
    length of the string less its hyphens. *)
Lemma Split_shape (s : string) :
  Forall (fun p => hyphens p = O) (Split s) /\
  (fold_right (fun p n => String.length p + n) O (Split s) + hyphens s = String.length s)%nat.
Proof.
  induction s as [|c s [IH1 IH2]]; cbn; [split; [constructor; [reflexivity | constructor] | reflexivity]|].
  destruct (Ascii.eqb c "-"%char) eqn:Hc; cbn.
  - split; [constructor; [reflexivity | exact IH1] | lia].
  - destruct (Split s) as [|p ps]; cbn in IH1, IH2 |- *.
    + split; [constructor; [cbn; rewrite Hc; reflexivity | constructor] | lia].
    + inversion IH1; subst. split; [constructor; [cbn; rewrite Hc; assumption | assumption] | lia].
Qed.

Lemma join_shape (ps : list string) :
  String.length (join ps) = fold_right (fun p n => String.length p + n)%nat O ps /\
  hyphens (join ps) = fold_right (fun p n => hyphens p + n)%nat O ps /\
  isASCII (join ps) = forallb isASCII ps.
Proof.
  induction ps as [|p ps [IH1 [IH2 IH3]]]; cbn [join fold_right forallb];
    [repeat split; reflexivity|].
  rewrite length_append, hyphens_append, isASCII_append, IH1, IH2, IH3. repeat split.
Qed.

Lemma Split_nonnil (s : string) : exists p ps, Split s = p :: ps.
Proof.
  induction s as [|c s [p [ps IH]]]; cbn; [eauto|].
  rewrite IH. destruct (Ascii.eqb c "-"%char); eauto.
Qed.

Lemma Split_no_hyphen (s : string) : hyphens s = O -> Split s = [s].
Proof.
  induction s as [|c s IH]; cbn; [reflexivity|].
  destruct (Ascii.eqb c "-"%char); cbn; [discriminate|].
  intros H. rewrite IH by exact H. reflexivity.
Qed.

Lemma Split_app_hyphen (a b : string) :
  Split (String.append a (String "-"%char b)) = (Split a ++ Split b)%list.
Proof.
  induction a as [|c a IH]; [reflexivity|].
  rewrite append_cons. cbn. rewrite IH.
  destruct (Ascii.eqb c "-"%char); [reflexivity|].
  destruct (Split_nonnil a) as [p [ps ->]]. reflexivity.
Qed.

Lemma Split_hyphen_join (ps : list string) :
  ps <> [] -> Forall (fun p => hyphens p = O) ps -> Split (hyphen_join ps) = ps.
Proof.
  induction ps as [|p ps IH]; intros Hne HF; [congruence|].
  inversion HF; subst. destruct ps as [|q qs].
  - cbn. apply Split_no_hyphen. assumption.
  - change (hyphen_join (p :: q :: qs)) with
      (String.append p (String "-"%char (hyphen_join (q :: qs)))).
    rewrite Split_app_hyphen, Split_no_hyphen, IH by (assumption || discriminate).
    reflexivity.
Qed.

Lemma all_tail_lower (r : string) :
  all_bytes word_tail_byte r = true ->
  string_map ascii_lower r = r /\ isASCII r = true /\ hyphens r = O.
Proof.
  induction r as [|c r IH]; cbn; [repeat split|].
  intros H. apply andb_prop in H as [Hc Hr]. destruct (IH Hr) as [H1 [H2 H3]].
  destruct (tail_byte_ascii c Hc) as [Ha Hh].
  rewrite lower_tail_byte, H1, Ha, H2, Hh, H3 by exact Hc. repeat split.
Qed.

(** A lowercased capitalised word is ASCII, has no hyphen, and the loop
    body of [kebabToPascal] gives the word back. *)
Lemma kebab_part_word (w : string) :
  pascal_word w = true ->
  isASCII (string_map ascii_lower w) = true /\ hyphens (string_map ascii_lower w) = O /\
  kebab_part (string_map ascii_lower w) = w.
Proof.
  destruct w as [|u r]; cbn [pascal_word]; [discriminate|].
  intros H. apply andb_prop in H as [Hu Hr].
  destruct (all_tail_lower r Hr) as [Hl [Ha Hh]].
  destruct (lower_capital u Hu) as [Hua Huh].
  cbn [string_map]. rewrite Hl.
  assert (Hpa : isASCII (String (ascii_lower u) r) = true) by (cbn; rewrite Hua, Ha; reflexivity).
  split; [exact Hpa|]. split; [cbn; rewrite Huh, Hh; reflexivity|].
  assert (E1 : substring 0 1 (String (ascii_lower u) r) = String (ascii_lower u) EmptyString)
    by (destruct r; reflexivity).
  assert (E2 : drop 1 (String (ascii_lower u) r) = r) by reflexivity.
  assert (E3 : (0 <? String.length (String (ascii_lower u) r))%nat = true) by reflexivity.
  unfold kebab_part. rewrite E1, E2, E3.
  unfold ToUpper, ToLower. cbn [isASCII]. rewrite Hua, Ha. cbn [andb string_map].
  rewrite append_cons, append_nil, upper_lower_capital, Hl by exact Hu. reflexivity.
Qed.

End KebabShape.

(* ------------------------------------------------------------------ *)
(** ** Further properties of the code                                    *)
(* ------------------------------------------------------------------ *)

Import DispatchFacts.

(** On the invoke-by-name path of a reachable server, a method that takes a
    parameter and a body that does not decode give the BadRequest response
    ["Invalid parameters: <err>"]; the method is not called. *)
Theorem handle_bind_failure (s : Server) (e : RequestEvent) (serv slug : string)
  (svc : RPCService) (md : RPCMethod) (t : GoType) (err : string) :
  reachable s -> services s !! serv = Some svc -> methods svc !! kebabToPascal slug = Some md ->
  Type' md = Some t -> BindBody e t (req_body e) = inl err ->
  handle s e serv slug =
    (JSON StatusBadRequest (ErrorBody ("Invalid parameters: " +:+ err)), [EvBind t]).
Proof.
  intros Hr Hs Hm Ht Hb. destruct (registered_descriptor s serv _ svc md Hr Hs Hm)
    as [HM [_ [_ [_ [_ [Hp _]]]]]].
  assert (HP : HasParams md = true) by (apply Hp; congruence).
  unfold handle, handleRPC. rewrite Hs, Hm, HM, HP, Ht, Hb. reflexivity.
Qed.

Lemma handle_bind_failure_witness :
  handle Fixture.test_server Products.bad_event "test" "create-user" =
    (JSON StatusBadRequest (ErrorBody "Invalid parameters: unexpected EOF"),
     [EvBind Fixture.TestRequest]).
Proof.
  apply (handle_bind_failure Fixture.test_server Products.bad_event "test" "create-user"
           (introspect "test" (Some Fixture.TestService))
           (mkRPCMethod Fixture.CreateUser (Some Fixture.TestRequest) true true
              (Some Fixture.TestResponse))).
  - exact reachable_test_server.
  - vm_compute. reflexivity.
  - vm_compute. reflexivity.
  - reflexivity.
  - reflexivity.
Defined.

(** On the invoke-by-name path, the request body plays no part for a
    parameterless method: two requests differing in body and decoder get
    the same response and the same steps. *)
Theorem handle_body_ignored (s : Server) (e1 e2 : RequestEvent) (serv slug : string)
  (svc : RPCService) (md : RPCMethod) :
  services s !! serv = Some svc -> methods svc !! kebabToPascal slug = Some md ->
  HasParams md = false -> handle s e1 serv slug = handle s e2 serv slug.
Proof.
  intros Hs Hm Hp. unfold handle, handleRPC. rewrite Hs, Hm.
  destruct (MethodByName (service svc) (Name (Method md))); [|reflexivity].
  rewrite Hp. reflexivity.
Qed.

Lemma handle_body_ignored_witness :
  handle Fixture.test_server (Fixture.event "{}") "test" "get-stats" =
  handle Fixture.test_server Products.bad_event "test" "get-stats".
Proof.
  apply (handle_body_ignored Fixture.test_server (Fixture.event "{}") Products.bad_event
           "test" "get-stats" (introspect "test" (Some Fixture.TestService))
           (mkRPCMethod Fixture.GetStats None false true (Some Fixture.StatsResponse)));
    vm_compute; reflexivity.
Defined.

(** On the invoke-by-name path of a reachable server, a call is made only to
    the method stored under the converted name, which is also the called
    method's name; it receives the decoded body (after a successful binding
    into the parameter type) when it takes a parameter and no argument
    otherwise, and these are the only steps taken. *)
Theorem handle_call_shape (s : Server) (e : RequestEvent) (serv slug : string)
  (resp : Response) (tr : list Event) (nm : string) (args results : list Value) :
  reachable s -> handle s e serv slug = (resp, tr) -> In (EvCall nm args results) tr ->
  exists svc md,
    services s !! serv = Some svc /\ methods svc !! kebabToPascal slug = Some md /\
    nm = kebabToPascal slug /\ results = Func (Method md) args /\
    ((HasParams md = true /\
      exists t arg, Type' md = Some t /\ BindBody e t (req_body e) = inr arg /\
                    args = [arg] /\ tr = [EvBind t; EvCall nm args results]) \/
     (HasParams md = false /\ args = [] /\ tr = [EvCall nm args results])).
Proof.
  intros Hr H Hin. unfold handle, handleRPC in H.
  destruct (services s !! serv) as [svc|] eqn:Hs; [|inversion H; subst; destruct Hin].
  destruct (methods svc !! kebabToPascal slug) as [md|] eqn:Hm;
    [|inversion H; subst; destruct Hin].
  destruct (registered_descriptor s serv _ svc md Hr Hs Hm) as [HM [_ [_ [Hk _]]]].
  rewrite HM in H. exists svc, md.
  split; [reflexivity || assumption|]. split; [reflexivity || assumption|].
  destruct (HasParams md) eqn:Hp.
  - destruct (Type' md) as [t|] eqn:Ht; [|inversion H; subst; destruct Hin].
    destruct (BindBody e t (req_body e)) as [err|arg] eqn:Hb.
    { inversion H; subst. destruct Hin as [Hin|[]]. discriminate. }
    destruct (Call (Method md) [arg]) as [res|] eqn:Hc.
    2: { inversion H; subst. destruct Hin as [Hin|[]]. discriminate. }
    inversion H; subst. destruct Hin as [Hin|[Hin|[]]]; [discriminate|].
    inversion Hin; subst. split; [exact Hk|]. split; [exact (Call_Func _ _ _ Hc)|].
    left. split; [reflexivity|]. exists t, arg. repeat split; assumption.
  - destruct (Call (Method md) []) as [res|] eqn:Hc; [|inversion H; subst; destruct Hin].
    inversion H; subst. destruct Hin as [Hin|[]].
    inversion Hin; subst. split; [exact Hk|]. split; [exact (Call_Func _ _ _ Hc)|].
    right. repeat split.
Qed.

Lemma products_service_wf : wf_instance Products.ProductsService.
Proof.
  split.
  - apply (bool_decide_unpack _). vm_compute. reflexivity.
  - repeat constructor; intros; discriminate.
Qed.

Lemma reachable_products_server : reachable Products.products_server.
Proof.
  apply reachable_register; [constructor|].
  intros i Hi. inversion Hi; subst. exact products_service_wf.
Qed.

Lemma edge_service_wf : wf_instance Products.EdgeService.
Proof.
  split.
  - apply (bool_decide_unpack _). vm_compute. reflexivity.
  - repeat constructor; intros; discriminate.
Qed.

Lemma reachable_edge_server : reachable Products.edge_server.
Proof.
  apply reachable_register; [constructor|].
  intros i Hi. inversion Hi; subst. exact edge_service_wf.
Qed.

Lemma handle_call_shape_witness :
  exists svc md,
    services Products.products_server !! "products" = Some svc /\
    methods svc !! "Create" = Some md /\ "Create" = kebabToPascal "create" /\
    [Products.product "{...}"; Fixture.nil_error] = Func (Method md) [Products.product "{...}"].
Proof.
  destruct (handle_call_shape Products.products_server (Fixture.event "{...}") "products"
              "create"
              (fst (handle Products.products_server (Fixture.event "{...}") "products"
                      "create"))
              (snd (handle Products.products_server (Fixture.event "{...}") "products"
                      "create"))
              "Create" [Products.product "{...}"]
              [Products.product "{...}"; Fixture.nil_error]) as [svc [md [H1 [H2 [H3 [H4 _]]]]]].
  - exact reachable_products_server.
  - vm_compute. reflexivity.
  - vm_compute. right. left. reflexivity.
  - exists svc, md. repeat split; assumption.
Defined.

(** On the fetch-by-id path, an unknown service gives the NotFound
    service-not-found response, and a known service without a method
    ["Get" ++ kebabToPascal entity] the NotFound method-not-found response
    naming that method; in both cases nothing is bound or called. *)
Theorem handleGet_not_found (s : Server) (e : RequestEvent) (serv entity id : string) :
  (services s !! serv = None ->
   handleGet s e serv entity id =
     (JSON StatusNotFound (ErrorBody ("Service '" +:+ serv +:+ "' not found")), [])) /\
  (forall svc, services s !! serv = Some svc ->
   methods svc !! ("Get" +:+ kebabToPascal entity) = None ->
   handleGet s e serv entity id =
     (JSON StatusNotFound
        (ErrorBody ("Method '" +:+ ("Get" +:+ kebabToPascal entity)
                    +:+ "' not found in service '" +:+ serv +:+ "'")), [])).
Proof.
  unfold handleGet, handleRPCGet. split.
  - intros H. rewrite H. reflexivity.
  - intros svc H Hm. rewrite H. cbv zeta. rewrite Hm. reflexivity.
Qed.

Lemma handleGet_not_found_witness :
  handleGet Products.products_server (Fixture.event "") "products" "order" "1" =
    (JSON StatusNotFound
       (ErrorBody "Method 'GetOrder' not found in service 'products'"), []).
Proof.
  apply (proj2 (handleGet_not_found Products.products_server (Fixture.event "")
                  "products" "order" "1") (introspect "products" (Some Products.ProductsService)));
    vm_compute; reflexivity.
Defined.

(** On the fetch-by-id path, a resolved [Get<Entity>] method whose parameter
    type is not of kind [string] gives the BadRequest response ["Method
    '<name>' does not accept a string parameter"]; the method is not
    called. *)
Theorem handleGet_non_string (s : Server) (e : RequestEvent) (serv entity id : string)
  (svc : RPCService) (md : RPCMethod) (t : GoType) :
  services s !! serv = Some svc -> methods svc !! ("Get" +:+ kebabToPascal entity) = Some md ->
  Type' md = Some t -> type_kind t <> KString ->
  handleGet s e serv entity id =
    (JSON StatusBadRequest
       (ErrorBody ("Method '" +:+ ("Get" +:+ kebabToPascal entity)
                   +:+ "' does not accept a string parameter")), []).
Proof.
  intros Hs Hm Ht Hk. unfold handleGet, handleRPCGet. rewrite Hs. cbv zeta.
  rewrite Hm, Ht, bool_decide_eq_true_2 by exact Hk. reflexivity.
Qed.

Lemma handleGet_non_string_witness :
  handleGet Products.edge_server (Fixture.event "") "edge" "batch" "9" =
    (JSON StatusBadRequest
       (ErrorBody "Method 'GetBatch' does not accept a string parameter"), []).
Proof.
  apply (handleGet_non_string Products.edge_server (Fixture.event "") "edge" "batch" "9"
           (introspect "edge" (Some Products.EdgeService))
           (mkRPCMethod Products.GetBatch (Some Fixture.TestRequest) true true
              (Some Fixture.TestResponse)) Fixture.TestRequest).
  - vm_compute. reflexivity.
  - vm_compute. reflexivity.
  - reflexivity.
  - discriminate.
Defined.

(** On the fetch-by-id path of a reachable server, a call is made only to
    the method named ["Get" ++ kebabToPascal entity], stored under that
    name with a parameter of kind [string]; its one argument is the path
    [id] as a Go [string], nothing is bound, and the call is the only step. *)
Theorem handleGet_call_shape (s : Server) (e : RequestEvent) (serv entity id : string)
  (resp : Response) (tr : list Event) (nm : string) (args results : list Value) :
  reachable s -> handleGet s e serv entity id = (resp, tr) -> In (EvCall nm args results) tr ->
  nm = "Get" +:+ kebabToPascal entity /\ args = [string_value id] /\
  tr = [EvCall nm args results] /\
  exists svc md t, services s !! serv = Some svc /\ methods svc !! nm = Some md /\
    Type' md = Some t /\ type_kind t = KString /\ results = Func (Method md) args.
Proof.
  intros Hr H Hin. unfold handleGet, handleRPCGet in H.
  destruct (services s !! serv) as [svc|] eqn:Hs; [|inversion H; subst; destruct Hin].
  cbv zeta in H.
  destruct (methods svc !! ("Get" +:+ kebabToPascal entity)) as [md|] eqn:Hm;
    [|inversion H; subst; destruct Hin].
  destruct (registered_descriptor s serv _ svc md Hr Hs Hm) as [HM [_ [_ [Hk _]]]].
  destruct (Type' md) as [t|] eqn:Ht; [|inversion H; subst; destruct Hin].
  destruct (bool_decide (type_kind t <> KString)) eqn:Hb; [inversion H; subst; destruct Hin|].
  rewrite HM in H.
  destruct (Call (Method md) [string_value id]) as [res|] eqn:Hc;
    [|inversion H; subst; destruct Hin].
  inversion H; subst. destruct Hin as [Hin|[]]. inversion Hin; subst.
  rewrite Hk. split; [reflexivity|]. split; [reflexivity|]. split; [reflexivity|].
  exists svc, md, t. split; [reflexivity || assumption|].
  split; [reflexivity || assumption|].
  split; [reflexivity || assumption|]. split.
  - apply bool_decide_eq_false_1 in Hb.
    destruct (decide (type_kind t = KString)) as [E|E]; [exact E | contradiction].
  - exact (Call_Func _ _ _ Hc).
Qed.

Lemma handleGet_call_shape_witness :
  "GetProduct" = "Get" +:+ kebabToPascal "product" /\
  snd (handleGet Products.products_server (Fixture.event "") "products" "product" "42") =
    [EvCall "GetProduct" [string_value "42"] [Products.product "id=42"; Fixture.nil_error]].
Proof.
  destruct (handleGet_call_shape Products.products_server (Fixture.event "") "products"
              "product" "42"
              (fst (handleGet Products.products_server (Fixture.event "") "products"
                      "product" "42"))
              (snd (handleGet Products.products_server (Fixture.event "") "products"
                      "product" "42"))
              "GetProduct" [string_value "42"]
              [Products.product "id=42"; Fixture.nil_error]) as [H1 [_ [H3 _]]].
  - exact reachable_products_server.
  - vm_compute. reflexivity.
  - vm_compute. left. reflexivity.
  - split; assumption.
Defined.

(** On a reachable server, on either path, a called method with a result
    value and a trailing error that is nil gives the OK response with the
    result value as the body. *)
Theorem dispatch_result_ok (s : Server) (e : RequestEvent) (serv name id : string)
  (resp : Response) (tr : list Event) (nm : string) (args : list Value) (r err : Value) :
  reachable s ->
  (handleRPC s e serv name = (resp, tr) \/ handleRPCGet s e serv name id = (resp, tr)) ->
  In (EvCall nm args [r; err]) tr -> IsNil err = Some true ->
  resp = JSON StatusOK (ResultBody r).
Proof.
  intros Hr Hh Hin Hnil.
  destruct (dispatch_call s e serv name id resp tr nm args [r; err] Hr Hh Hin) as [md [-> Hlen]].
  unfold check_results. destruct (HasResult md); cbn in Hlen; [|discriminate].
  cbn. rewrite Hnil. reflexivity.
Qed.

Lemma dispatch_result_ok_witness :
  fst (handleGet Products.products_server (Fixture.event "") "products" "product" "42")
  = JSON StatusOK (ResultBody (Products.product "id=42")).
Proof.
  apply (dispatch_result_ok Products.products_server (Fixture.event "") "products"
           "Product" "42" _
           (snd (handleGet Products.products_server (Fixture.event "") "products"
                   "product" "42"))
           "GetProduct" [string_value "42"] (Products.product "id=42") Fixture.nil_error).
  - exact reachable_products_server.
  - right. vm_compute. reflexivity.
  - vm_compute. left. reflexivity.
  - reflexivity.
Defined.

(** On a reachable server, on either path, a called method whose trailing
    result is of a kind that cannot be nil (a struct type implementing
    [error], say) makes the handler panic in [reflect.Value.IsNil], whatever
    the value returned. *)
Theorem dispatch_non_nilable_error_panics (s : Server) (e : RequestEvent)
  (serv name id : string) (resp : Response) (tr : list Event) (nm : string)
  (args results : list Value) (err : Value) :
  reachable s ->
  (handleRPC s e serv name = (resp, tr) \/ handleRPCGet s e serv name id = (resp, tr)) ->
  In (EvCall nm args results) tr -> trailing results = Some err ->
  nilable_kind (type_kind (val_type err)) = false ->
  resp = Panic "reflect: call of reflect.Value.IsNil".
Proof.
  intros Hr Hh Hin Ht Hk.
  destruct (dispatch_call s e serv name id resp tr nm args results Hr Hh Hin) as [md [-> Hlen]].
  assert (HN : IsNil err = None).
  { unfold IsNil. destruct (type_kind (val_type err)); cbn in Hk |- *; congruence. }
  unfold check_results.
  destruct (HasResult md); destruct results as [|r0 [|r1 [|r2 rs]]]; cbn in Hlen;
    try discriminate; cbn in Ht; inversion Ht; subst; cbn; rewrite HN; reflexivity.
Qed.

Lemma dispatch_non_nilable_error_panics_witness :
  fst (handle Products.edge_server (Fixture.event "") "edge" "health")
  = Panic "reflect: call of reflect.Value.IsNil".
Proof.
  apply (dispatch_non_nilable_error_panics Products.edge_server (Fixture.event "") "edge"
           "Health" "" _
           (snd (handle Products.edge_server (Fixture.event "") "edge" "health"))
           "Health" [] [mkValue Products.HealthError false "{}"]
           (mkValue Products.HealthError false "{}")).
  - exact reachable_edge_server.
  - left. vm_compute. reflexivity.
  - vm_compute. left. reflexivity.
  - reflexivity.
  - reflexivity.
Defined.



(** On the fetch-by-id path of a reachable server, a request never panics
    when the [Get<Entity>] method it resolves to takes a parameter, that
    parameter is the built-in [string] whenever its kind is [string], and
    the method returns values of its declared result types, the last of a
    kind that can be nil. *)
Theorem handleGet_no_panic (s : Server) (e : RequestEvent) (serv entity id : string) :
  reachable s ->
  (forall svc md, services s !! serv = Some svc ->
     methods svc !! ("Get" +:+ kebabToPascal entity) = Some md ->
     typed_results (Method md) /\ Type' md <> None /\
     (forall t, Type' md = Some t -> type_kind t = KString -> t = string_type)) ->
  forall msg, fst (handleGet s e serv entity id) <> Panic msg.
Proof.
  intros Hr Hty msg. unfold handleGet, handleRPCGet.
  destruct (services s !! serv) as [svc|] eqn:Hs; [|cbn; discriminate]. cbv zeta.
  destruct (methods svc !! ("Get" +:+ kebabToPascal entity)) as [md|] eqn:Hm;
    [|cbn; discriminate].
  destruct (registered_descriptor s serv _ svc md Hr Hs Hm) as [HM [Hi _]].
  destruct (Hty svc md ltac:(reflexivity || assumption) ltac:(reflexivity || assumption))
    as [Htr [Hne Hstr]].
  destruct (Type' md) as [t|] eqn:Ht; [|congruence].
  destruct (bool_decide (type_kind t <> KString)) eqn:Hb; [cbn; discriminate|].
  apply bool_decide_eq_false_1 in Hb.
  assert (Hk : type_kind t = KString)
    by (destruct (decide (type_kind t = KString)) as [E|E]; [exact E | contradiction]).
  specialize (Hstr t eq_refl Hk). subst t.
  destruct (method_info_params _ _ Hi) as [[_ [recv [t [Hin Ht']]]] | [_ [Ht' _]]];
    [|congruence].
  rewrite Ht in Ht'. inversion Ht'; subst t.
  rewrite HM.
  assert (Hc : Call (Method md) [string_value id] = Some (Func (Method md) [string_value id])).
  { unfold Call. rewrite Hin. cbn. rewrite type_eqb_refl. reflexivity. }
  rewrite Hc. cbn. apply (check_results_safe _ _ _ _ Hi Htr).
Qed.

Lemma handleGet_no_panic_witness :
  fst (handleGet Products.products_server (Fixture.event "") "products" "product" "42")
    <> Panic "".
Proof.
  apply (handleGet_no_panic Products.products_server (Fixture.event "") "products"
           "product" "42").
  - exact reachable_products_server.
  - intros svc md Hs Hm. vm_compute in Hs. inversion Hs; subst svc.
    vm_compute in Hm. inversion Hm; subst md. split; [split|split].
    + intros args. reflexivity.
    + intros t Ht. inversion Ht. reflexivity.
    + discriminate.
    + intros t Ht _. inversion Ht. reflexivity.
Defined.

(** On the fetch-by-id path of a reachable server, a [Get<Entity>] method
    whose parameter has kind [string] but is a named type other than the
    built-in [string] (such as [type ID string]) passes the kind check, and
    the call with the path [id] (a plain [string]) panics. *)
Theorem handleGet_named_string_panics (s : Server) (e : RequestEvent)
  (serv entity id : string) (svc : RPCService) (md : RPCMethod) (t : GoType) :
  reachable s -> services s !! serv = Some svc ->
  methods svc !! ("Get" +:+ kebabToPascal entity) = Some md ->
  Type' md = Some t -> type_kind t = KString -> type_eqb string_type t = false ->
  handleGet s e serv entity id = (Panic "reflect: Call using wrong argument", []).
Proof.
  intros Hr Hs Hm Ht Hk Hneq. unfold handleGet, handleRPCGet. rewrite Hs. cbv zeta.
  rewrite Hm, Ht.
  rewrite bool_decide_eq_false_2 by (intros H; apply H; exact Hk).
  destruct (registered_descriptor s serv _ svc md Hr Hs Hm) as [HM [Hi _]].
  rewrite HM.
  destruct (method_info_params _ _ Hi) as [[_ [recv [t' [Hin Ht']]]] | [_ [Ht' _]]];
    [|congruence].
  rewrite Ht in Ht'. inversion Ht'; subst t'.
  unfold Call. rewrite Hin. cbn. rewrite Hneq. reflexivity.
Qed.

Lemma handleGet_named_string_panics_witness :
  handleGet Products.edge_server (Fixture.event "") "edge" "item" "5" =
    (Panic "reflect: Call using wrong argument", []).
Proof.
  apply (handleGet_named_string_panics Products.edge_server (Fixture.event "") "edge"
           "item" "5" (introspect "edge" (Some Products.EdgeService))
           (mkRPCMethod Products.GetItem (Some Products.ItemID) true true
              (Some Fixture.TestResponse)) Products.ItemID).
  - exact reachable_edge_server.
  - vm_compute. reflexivity.
  - vm_compute. reflexivity.
  - reflexivity.
  - reflexivity.
  - reflexivity.
Defined.

(** Registrations under two different names commute: the registry is the
    same whichever is done first. *)
Theorem RegisterService_commute (s : Server) (n m : string) (a b : option Instance) :
  n <> m ->
  fst (RegisterService (fst (RegisterService s n a)) m b) =
  fst (RegisterService (fst (RegisterService s m b)) n a).
Proof. intros Hne. cbn. f_equal. apply insert_insert_ne. congruence. Qed.

Lemma RegisterService_commute_witness :
  "user" <> "order" /\
  fst (RegisterService (fst (RegisterService NewServer "user" (Some Fixture.TestService)))
         "order" (Some Fixture.OrderService)) =
  fst (RegisterService (fst (RegisterService NewServer "order" (Some Fixture.OrderService)))
         "user" (Some Fixture.TestService)).
Proof.
  assert (Hne : "user" <> "order") by discriminate.
  split; [exact Hne|].
  exact (RegisterService_commute NewServer "user" "order" (Some Fixture.TestService)
           (Some Fixture.OrderService) Hne).
Defined.

(** [RegisterService] adds one entry to the registry for a new name and
    none for a name already registered. *)
Theorem RegisterService_size (s : Server) (n : string) (inst : option Instance) :
  size (services (fst (RegisterService s n inst))) =
  match services s !! n with
  | Some _ => size (services s)
  | None => S (size (services s))
  end.
Proof.
  cbn. rewrite map_size_insert. destruct (services s !! n); reflexivity.
Qed.

(** On a reachable server, every registry entry is named by its key, and
    every method table entry is a consistent descriptor whose method has
    the key as its name and is the one [MethodByName] finds on the stored
    instance. *)
Theorem reachable_registry_consistent (s : Server) :
  reachable s ->
  forall n svc, services s !! n = Some svc ->
    serviceName svc = n /\
    forall k md, methods svc !! k = Some md ->
      descriptor_ok k md /\ MethodByName (service svc) k = Some (Method md).
Proof.
  intros Hr n svc Hs. split.
  - destruct (reachable_services s Hr n svc Hs) as [Hsvc _].
    rewrite Hsvc. destruct (service svc); reflexivity.
  - intros k md Hk.
    destruct (registered_descriptor s n k svc md Hr Hs Hk) as [HM [_ [_ [Hn Hok]]]].
    split; [exact Hok|]. rewrite <- Hn. exact HM.
Qed.

Lemma reachable_registry_consistent_witness :
  serviceName (introspect "products" (Some Products.ProductsService)) = "products".
Proof.
  apply (proj1 (reachable_registry_consistent Products.products_server
                  reachable_products_server "products"
                  (introspect "products" (Some Products.ProductsService))
                  ltac:(vm_compute; reflexivity))).
Defined.

(** On an ASCII string, [kebabToPascal] gives an ASCII string without
    hyphens, whose length is that of the input less its hyphens: every
    other byte is kept, in place of itself or of its case variant. *)
Theorem kebabToPascal_ascii_shape (s : string) :
  isASCII s = true ->
  isASCII (kebabToPascal s) = true /\ hyphens (kebabToPascal s) = O /\
  String.length (kebabToPascal s) = (String.length s - hyphens s)%nat.
Proof.
  intros Ha. unfold kebabToPascal.
  destruct (KebabShape.Split_shape s) as [HF Hsum].
  pose proof (KebabFacts.Split_ascii s Ha) as HA.
  destruct (KebabShape.join_shape (map kebab_part (Split s))) as [H1 [H2 H3]].
  rewrite H1, H2, H3.
  assert (E : fold_right (fun p n => String.length p + n)%nat O (map kebab_part (Split s)) =
              fold_right (fun p n => String.length p + n)%nat O (Split s) /\
              fold_right (fun p n => hyphens p + n)%nat O (map kebab_part (Split s)) = O /\
              forallb isASCII (map kebab_part (Split s)) = true).
  { clear Hsum H1 H2 H3. induction (Split s) as [|p ps IH]; [repeat split|].
    inversion HF; subst. inversion HA; subst.
    destruct (KebabShape.kebab_part_shape p ltac:(assumption)) as [L [A Hy]].
    destruct (IH ltac:(assumption) ltac:(assumption)) as [IH1 [IH2 IH3]].
    cbn [map fold_right forallb]. rewrite L, A, Hy, IH1, IH2, IH3.
    match goal with H : hyphens p = O |- _ => rewrite H end. repeat split. }
  destruct E as [E1 [E2 E3]]. rewrite E1, E2, E3. repeat split. lia.
Qed.

Lemma kebabToPascal_ascii_shape_witness :
  String.length (kebabToPascal "get-user-profile") = 14%nat.
Proof.
  exact (proj2 (proj2 (kebabToPascal_ascii_shape "get-user-profile" eq_refl))).
Defined.

(** Round trip: lowercasing capitalised ASCII words and joining them with
    hyphens gives a slug that [kebabToPascal] turns back into the words'
    concatenation; so a method such as [CreateUser] or [GetURL] is reached
    by the slug ["create-user"] or ["get-u-r-l"]. *)
Theorem kebabToPascal_words (ws : list string) :
  Forall (fun w => pascal_word w = true) ws -> kebabToPascal (kebab_of_words ws) = join ws.
Proof.
  intros HF. destruct ws as [|w ws]; [reflexivity|].
  unfold kebabToPascal, kebab_of_words.
  assert (HP : Forall (fun p => hyphens p = O) (map (string_map ascii_lower) (w :: ws)) /\
               map kebab_part (map (string_map ascii_lower) (w :: ws)) = w :: ws).
  { clear -HF. induction HF as [|x xs Hx HF IH]; [split; [constructor | reflexivity]|].
    destruct IH as [IH1 IH2]. destruct (KebabShape.kebab_part_word x Hx) as [_ [Hh Hk]].
    cbn [map]. split; [constructor; assumption|]. cbn [map] in IH2. rewrite Hk, IH2.
    reflexivity. }
  destruct HP as [HP1 HP2].
  rewrite KebabShape.Split_hyphen_join by (discriminate || exact HP1).
  rewrite HP2. reflexivity.
Qed.

Lemma kebabToPascal_words_witness :
  kebabToPascal (kebab_of_words ["Get"; "U"; "R"; "L"]) = "GetURL".
Proof.
  apply (kebabToPascal_words ["Get"; "U"; "R"; "L"]).
  repeat constructor.
Defined.
